(** * logspout-cloudwatch: the adapter loop and the uploader loop

    A shallow embedding of [cloudwatch.go] (the [CloudwatchAdapter.Stream]
    loop) and of the uploader ([CloudwatchUploader.Start],
    [getSequenceToken], [groupExists] and the small AWS client methods).

    The AWS CloudWatch Logs endpoint and the Docker daemon are outside the
    program: they are modelled as handlers over an abstract world state, and
    every remote call is recorded, with its reply, in a trace.  The Go maps
    ([tokens], [groupnames], [streamnames], [retentiondays]) are [gmap]s
    with string keys.  [u.log] only prints when the debug flag is set and
    touches no state, so it is left out. *)

From Stdlib Require Import ZArith List Ascii String Lia.
From stdpp Require Import base option list strings pretty gmap.

Local Open Scope Z_scope.

(** ** Errors

    A Go [error] is either a value handed back by a library (the AWS SDK,
    the Docker client, [strconv]) or one the program makes itself with
    [errors.New]. *)
Inductive error : Type :=
| LibError (text : string)
| errors_New (text : string).

(** ** Messages and batches *)

(** Modelled from the spec: [CloudwatchMessage] is declared with the
    batcher, which is not embedded here; its fields are those of the literal
    built in [CloudwatchAdapter.Stream].  [Time] holds the value of
    [msg.Time.UnixNano()], a signed 64-bit count of nanoseconds. *)
Record CloudwatchMessage : Type := {
  Message : string;
  Group : string;
  Stream : string;
  Time : Z;
  Container : string
}.

(** Modelled from the spec: [CloudwatchBatch] is declared with the batcher,
    which is not embedded here; the uploader reads [batch.Msgs] and
    [batch.Size]. *)
Record CloudwatchBatch : Type := {
  Msgs : list CloudwatchMessage;
  Size : Z
}.

(** ** The part of the AWS SDK the uploader talks to *)

Record LogGroup : Type := { LogGroupName : string }.

Record LogStream : Type := {
  LogStreamName : string;
  UploadSequenceToken : option string
}.

Record InputLogEvent : Type := {
  ev_Message : string;
  ev_Timestamp : Z
}.

Record PutLogEventsInput : Type := {
  LogEvents : list InputLogEvent;
  put_LogGroupName : string;
  put_LogStreamName : string;
  SequenceToken : option string
}.

(** The service: each operation takes the world to a new world and a reply,
    an error or the output the uploader reads. *)
Class CloudWatchLogs (W : Type) : Type := {
  DescribeLogGroups : string -> W -> W * (error + list LogGroup);
  CreateLogGroup : string -> W -> W * (error + unit);
  PutRetentionPolicy : string -> Z -> W -> W * (error + unit);
  DescribeLogStreams : string -> string -> W -> W * (error + list LogStream);
  CreateLogStream : string -> string -> W -> W * (error + unit);
  PutLogEvents : PutLogEventsInput -> W -> W * (error + option string)
}.

(** One remote call together with what came back.  The constructors carry
    the names the interface description gives the six operations. *)
Module Remote.
Inductive Call : Type :=
| listGroups (prefix : string) (out : error + list LogGroup)
| createGroup (group : string) (out : error + unit)
| setRetention (group : string) (days : Z) (out : error + unit)
| listStreams (group prefix : string) (out : error + list LogStream)
| createStream (group stream : string) (out : error + unit)
| appendEvents (params : PutLogEventsInput) (out : error + option string).
End Remote.

(** ** The adapter's caches, as the uploader sees them *)
Record CloudwatchAdapter : Type := {
  OsHost : string;
  Ec2Region : string;
  Ec2Instance : string;
  groupnames : gmap string string;
  streamnames : gmap string string;
  retentiondays : gmap string Z
}.

(** ** The uploader *)

(** What a method call comes to: a value, an error, or no return at all
    (the recursion of [getSequenceToken] has no bound of its own, so its
    model runs on fuel and [Spin] is the run that used it all up). *)
Inductive res (A : Type) : Type :=
| Val (a : A)
| Raise (e : error)
| Spin.
Arguments Val {A} a.
Arguments Raise {A} e.
Arguments Spin {A}.

(** How one turn of the loop of [Start] ended: at which [continue], or at
    the end of the body. *)
Inductive Verdict : Type :=
| EmptyBatch
| TokenError (err : error)
| PutError (err : error)
| Posted (NextSequenceToken : option string).

Record CloudwatchUploader (W : Type) : Type := {
  adapter : CloudwatchAdapter;
  svc : W;
  tokens : gmap string string
}.
Arguments adapter {W} _.
Arguments svc {W} _.
Arguments tokens {W} _.

Section Uploader.
Context {W : Type} `{aws : CloudWatchLogs W}.

Definition with_svc (u : CloudwatchUploader W) (w : W) : CloudwatchUploader W :=
  {| adapter := adapter u; svc := w; tokens := tokens u |}.

(** [u.tokens[k] = v] *)
Definition set_token (k v : string) (u : CloudwatchUploader W) : CloudwatchUploader W :=
  {| adapter := adapter u; svc := svc u; tokens := <[k := v]> (tokens u) |}.

(** A method of the uploader: from the uploader's state to its new state,
    the remote calls made in order, and the outcome. *)
Definition M (A : Type) : Type :=
  CloudwatchUploader W -> CloudwatchUploader W * list Remote.Call * res A.

Definition ret {A} (a : A) : M A := fun u => (u, [], Val a).

Definition throw {A} (e : error) : M A := fun u => (u, [], Raise e).

(** Reading a field of [u]. *)
Definition gets {A} (f : CloudwatchUploader W -> A) : M A :=
  fun u => (u, [], Val (f u)).

Definition bind {A B} (c : M A) (k : A -> M B) : M B :=
  fun u =>
    match c u with
    | (u1, t1, Val a) =>
        match k a u1 with
        | (u2, t2, r) => (u2, t1 ++ t2, r)
        end
    | (u1, t1, Raise e) => (u1, t1, Raise e)
    | (u1, t1, Spin) => (u1, t1, Spin)
    end.

Notation "x <- c ;; k" := (bind c (fun x => k))
  (at level 100, c at next level, right associativity).
Notation "c ;;; k" := (bind c (fun _ => k))
  (at level 100, k at level 200, right associativity).

(** A call of an SDK method: the world moves on, the exchange is traced,
    and [err != nil] becomes [Raise]. *)
Definition rpc {A} (op : W -> W * (error + A)) (log : error + A -> Remote.Call) : M A :=
  fun u =>
    match op (svc u) with
    | (w, out) =>
        (with_svc u w, [log out],
         match out with inl e => Raise e | inr a => Val a end)
    end.

(** The loop of [groupExists] over [resp.LogGroups]. *)
Fixpoint matchGroup (group : string) (LogGroups : list LogGroup) : bool :=
  match LogGroups with
  | [] => false
  | matchedGroup :: rest =>
      if String.eqb (LogGroupName matchedGroup) group then true
      else matchGroup group rest
  end.

Definition groupExists (group : string) : M bool :=
  resp <- rpc (DescribeLogGroups group) (Remote.listGroups group) ;;
  ret (matchGroup group resp).

Definition createGroup (group : string) : M unit :=
  rpc (CreateLogGroup group) (Remote.createGroup group).

Definition createGroupRetentionPolicy (group : string) (retentionInDays : Z) : M unit :=
  rpc (PutRetentionPolicy group retentionInDays)
      (Remote.setRetention group retentionInDays).

Definition createStream (group stream : string) : M unit :=
  rpc (CreateLogStream group stream) (Remote.createStream group stream).

(** [fmt.Sprintf("%d streams match group %s, stream %s!", count, group, stream)] *)
Definition tooManyStreams (count : nat) (group stream : string) : string :=
  pretty count +:+ " streams match group " +:+ group
               +:+ ", stream " +:+ stream +:+ "!".

(** [getSequenceToken] calls itself after it has created the stream; [fuel]
    counts the calls still allowed. *)
Fixpoint getSequenceToken (fuel : nat) (msg : CloudwatchMessage) : M (option string) :=
  match fuel with
  | O => fun u => (u, [], Spin)
  | S fuel' =>
      let group := Group msg in
      let stream := Stream msg in
      groupExists_ <- groupExists group ;;
      (if negb groupExists_ then
         createGroup group ;;;
         configured <- gets (fun u => retentiondays (adapter u) !! group) ;;
         match configured with
         | Some retentionDays => createGroupRetentionPolicy group retentionDays
         | None => ret tt
         end
       else ret tt) ;;;
      resp <- rpc (DescribeLogStreams group stream) (Remote.listStreams group stream) ;;
      let count := length resp in
      if (1 <? count)%nat then
        throw (errors_New (tooManyStreams count group stream))
      else
        match resp with
        | [] => createStream group stream ;;; getSequenceToken fuel' msg
        | LogStream0 :: _ => ret (UploadSequenceToken LogStream0)
        end
  end.

(** The events of a batch: [msg.Time.UnixNano() / 1000000] is Go's integer
    division, which rounds towards zero. *)
Definition toEvent (msg : CloudwatchMessage) : InputLogEvent :=
  {| ev_Message := Message msg; ev_Timestamp := Time msg ÷ 1000000 |}.

Fixpoint buildEvents (events : list InputLogEvent) (Msgs : list CloudwatchMessage)
  : list InputLogEvent :=
  match Msgs with
  | [] => events
  | msg :: rest => buildEvents (events ++ [toEvent msg]) rest
  end.

(** The [PutLogEventsInput] built for a batch whose first message is
    [msg]. *)
Definition putParams (batch : CloudwatchBatch) (msg : CloudwatchMessage)
    (token : option string) : PutLogEventsInput :=
  {| LogEvents := buildEvents [] (Msgs batch);
     put_LogGroupName := Group msg;
     put_LogStreamName := Stream msg;
     SequenceToken := token |}.

(** "fetch and cache the upload sequence token": the cached token of the
    first message's container or, without one, what [getSequenceToken]
    returns, cached when it is not [nil]. *)
Definition fetchToken (fuel : nat) (msg : CloudwatchMessage) : M (option string) :=
  fun u =>
    match tokens u !! Container msg with
    | Some cachedToken => (u, [], Val (Some cachedToken))
    | None =>
        match getSequenceToken fuel msg u with
        | (u1, t1, Val (Some awsToken)) =>
            (set_token (Container msg) awsToken u1, t1, Val (Some awsToken))
        | other => other
        end
    end.

(** The body of the loop of [Start], for one batch taken from [u.Input]. *)
Definition deliver (fuel : nat) (batch : CloudwatchBatch) : M Verdict :=
  fun u =>
    match Msgs batch with
    | [] => (u, [], Val EmptyBatch)
    | msg :: _ =>
        match fetchToken fuel msg u with
        | (u1, t1, Spin) => (u1, t1, Spin)
        | (u1, t1, Raise err) => (u1, t1, Val (TokenError err))
        | (u1, t1, Val token) =>
            let params := putParams batch msg token in
            match PutLogEvents params (svc u1) with
            | (w, inl err) =>
                (with_svc u1 w, t1 ++ [Remote.appendEvents params (inl err)],
                 Val (PutError err))
            | (w, inr resp) =>
                (match resp with
                 | Some NextSequenceToken =>
                     set_token (Container msg) NextSequenceToken (with_svc u1 w)
                 | None => with_svc u1 w
                 end,
                 t1 ++ [Remote.appendEvents params (inr resp)],
                 Val (Posted resp))
            end
        end
    end.

(** [for batch := range u.Input]: the batches that arrive on the channel,
    one after the other. *)
Fixpoint Start (fuel : nat) (Input : list CloudwatchBatch) : M (list Verdict) :=
  match Input with
  | [] => ret []
  | batch :: rest =>
      v <- deliver fuel batch ;;
      vs <- Start fuel rest ;;
      ret (v :: vs)
  end.

End Uploader.

Arguments M W : clear implicits.

(** ** The adapter loop *)

(** The parts of [docker.Container] and [router.Message] that [Stream]
    reads. *)
Record DockerConfig : Type := {
  Env : list string;
  Hostname : string;
  Labels : gmap string string
}.

Record DockerContainer : Type := {
  ID : string;
  Name : string;
  Config : DockerConfig
}.

Record RouterMessage : Type := {
  Container_ : DockerContainer;
  Data : string
}.

(** Modelled from the spec: [RenderContext] is declared with the naming
    rules, which are not embedded here; its fields are those of the literal
    built in [Stream].  [E] is the type of what [parseEnv] returns. *)
Record RenderContext (E : Type) : Type := {
  ctx_Env : E;
  ctx_Labels : gmap string string;
  ctx_Name : string;
  ctx_ID : string;
  ctx_Host : string;
  ctx_LoggerHost : string;
  ctx_InstanceID : string;
  ctx_Region : string
}.
Arguments ctx_Name {E} _.

(** [strings.TrimPrefix(s, "/")] *)
Definition TrimPrefixSlash (s : string) : string :=
  match s with
  | String "/"%char rest => rest
  | _ => s
  end.

Section Adapter.
(** The host side: the Docker daemon and the clock are a world [D]; naming
    rules, environment parsing and [strconv.ParseInt(_, 10, 64)] are taken
    as given. *)
Context {D E : Type}.
Context (InspectContainer : string -> D -> D * (error + DockerContainer)).
Context (Now : D -> D * Z).
Context (parseEnv : list string -> E).
Context (renderEnvValue :
           CloudwatchAdapter -> string -> RenderContext E -> string -> string).
Context (ParseInt : string -> error + Z).

Definition cache_names (id groupName streamName : string) (a : CloudwatchAdapter)
  : CloudwatchAdapter :=
  {| OsHost := OsHost a; Ec2Region := Ec2Region a; Ec2Instance := Ec2Instance a;
     groupnames := <[id := groupName]> (groupnames a);
     streamnames := <[id := streamName]> (streamnames a);
     retentiondays := retentiondays a |}.

Definition cache_retention (groupName : string) (days : Z) (a : CloudwatchAdapter)
  : CloudwatchAdapter :=
  {| OsHost := OsHost a; Ec2Region := Ec2Region a; Ec2Instance := Ec2Instance a;
     groupnames := groupnames a;
     streamnames := streamnames a;
     retentiondays := <[groupName := days]> (retentiondays a) |}.

(** What [Stream] hands to [a.batcher.Input]. *)
Definition forward (m : RouterMessage) (groupName streamName : string) (d : D)
  : D * CloudwatchMessage :=
  let '(d', now) := Now d in
  (d', {| Message := Data m; Group := groupName; Stream := streamName;
          Time := now; Container := ID (Container_ m) |}).

(** The body of the loop of [CloudwatchAdapter.Stream] (the name [Stream]
    is taken by the field of [CloudwatchMessage]), for one message [m]: the new caches,
    the new world, and either the message sent on to the batcher or the
    error that was logged before [continue]. *)
Definition Stream_body (m : RouterMessage) (a : CloudwatchAdapter) (d : D)
  : CloudwatchAdapter * D * (error + CloudwatchMessage) :=
  let id := ID (Container_ m) in
  let groupName := default "" (groupnames a !! id) in
  let streamName := default "" (streamnames a !! id) in
  if String.eqb streamName "" || String.eqb groupName "" then
    match InspectContainer id d with
    | (d1, inl err) => (a, d1, inl err)
    | (d1, inr containerData) =>
        let context :=
          {| ctx_Env := parseEnv (Env (Config (Container_ m)));
             ctx_Labels := Labels (Config containerData);
             ctx_Name := TrimPrefixSlash (Name (Container_ m));
             ctx_ID := id;
             ctx_Host := Hostname (Config (Container_ m));
             ctx_LoggerHost := OsHost a;
             ctx_InstanceID := Ec2Instance a;
             ctx_Region := Ec2Region a |} in
        let groupName := renderEnvValue a "LOGSPOUT_GROUP" context (OsHost a) in
        let streamName := renderEnvValue a "LOGSPOUT_STREAM" context (ctx_Name context) in
        let a1 := cache_names id groupName streamName a in
        let retentionDays :=
          renderEnvValue a1 "LOGSPOUT_CLOUDWATCH_RETENTION_DAYS" context "" in
        let a2 :=
          if negb (String.eqb retentionDays "") then
            match ParseInt retentionDays with
            | inr retentionDaysInt => cache_retention groupName retentionDaysInt a1
            | inl _ => a1
            end
          else a1 in
        let '(d2, out) := forward m groupName streamName d1 in
        (a2, d2, inr out)
    end
  else
    let '(d1, out) := forward m groupName streamName d in
    (a, d1, inr out).

(** [for m := range logstream]: the final caches and world, and what the
    loop did with each message, in order. *)
Fixpoint Stream_loop (logstream : list RouterMessage) (a : CloudwatchAdapter) (d : D)
  : CloudwatchAdapter * D * list (error + CloudwatchMessage) :=
  match logstream with
  | [] => (a, d, [])
  | m :: rest =>
      let '(a1, d1, out) := Stream_body m a d in
      let '(a2, d2, outs) := Stream_loop rest a1 d1 in
      (a2, d2, out :: outs)
  end.

(** The messages that reached the batcher. *)
Fixpoint batcherInput (outs : list (error + CloudwatchMessage)) : list CloudwatchMessage :=
  match outs with
  | [] => []
  | inl _ :: rest => batcherInput rest
  | inr msg :: rest => msg :: batcherInput rest
  end.

End Adapter.

(** ** A scripted service

    For runs on concrete inputs the remote side is a script: the list of
    replies still to come, each call taking the next one.  A reply of the
    wrong kind, or none left, is a failed call. *)
Module Script.
Inductive Reply : Type :=
| Fails (e : error)
| Groups (names : list string)
| Streams (streams : list LogStream)
| Ok
| Next (token : option string).

Definition take {A} (pick : Reply -> option A) (w : list Reply)
  : list Reply * (error + A) :=
  match w with
  | [] => ([], inl (LibError "script: no reply left"))
  | Fails e :: w' => (w', inl e)
  | r :: w' =>
      (w', match pick r with
           | Some a => inr a
           | None => inl (LibError "script: reply of another kind")
           end)
  end.

Definition groups (r : Reply) : option (list LogGroup) :=
  match r with
  | Groups names => Some (map (fun n => {| LogGroupName := n |}) names)
  | _ => None
  end.

Definition streams (r : Reply) : option (list LogStream) :=
  match r with Streams l => Some l | _ => None end.

Definition ok (r : Reply) : option unit :=
  match r with Ok => Some tt | _ => None end.

Definition next (r : Reply) : option (option string) :=
  match r with Next t => Some t | _ => None end.

#[global] Instance service : CloudWatchLogs (list Reply) := {|
  DescribeLogGroups _ := take groups;
  CreateLogGroup _ := take ok;
  PutRetentionPolicy _ _ := take ok;
  DescribeLogStreams _ _ := take streams;
  CreateLogStream _ _ := take ok;
  PutLogEvents _ := take next
|}.
End Script.

(** ** Concrete inputs *)

Definition noAdapter : CloudwatchAdapter :=
  {| OsHost := "host"; Ec2Region := "eu-west-1"; Ec2Instance := "i-0";
     groupnames := ∅; streamnames := ∅; retentiondays := ∅ |}.

(** An adapter that was given a retention of [days] for group [g]. *)
Definition retaining (g : string) (days : Z) : CloudwatchAdapter :=
  {| OsHost := "host"; Ec2Region := "eu-west-1"; Ec2Instance := "i-0";
     groupnames := ∅; streamnames := ∅; retentiondays := {[ g := days ]} |}.

Definition message (container group stream text : string) (nanos : Z)
  : CloudwatchMessage :=
  {| Message := text; Group := group; Stream := stream;
     Time := nanos; Container := container |}.

(** A fresh uploader (no token cached) in front of a scripted service. *)
Definition fresh (a : CloudwatchAdapter) (script : list Script.Reply)
  : CloudwatchUploader (list Script.Reply) :=
  {| adapter := a; svc := script; tokens := ∅ |}.

Definition web1 : LogStream :=
  {| LogStreamName := "web-1"; UploadSequenceToken := None |}.

(** Three messages of container [c1] for the destination (app, web-1). *)
Definition batch3 : CloudwatchBatch :=
  {| Msgs := [message "c1" "app" "web-1" "one" 1700000000123456789;
              message "c1" "app" "web-1" "two" 1700000000124000000;
              message "c1" "app" "web-1" "three" 1700000000124999999];
     Size := 11 |}.

Definition events3 : list InputLogEvent :=
  [{| ev_Message := "one"; ev_Timestamp := 1700000000123 |};
   {| ev_Message := "two"; ev_Timestamp := 1700000000124 |};
   {| ev_Message := "three"; ev_Timestamp := 1700000000124 |}].

(** ** Traces of remote calls *)

Definition is_append (c : Remote.Call) : bool :=
  match c with Remote.appendEvents _ _ => true | _ => false end.


Definition is_list_or_create (c : Remote.Call) : bool :=
  match c with
  | Remote.listGroups _ _ | Remote.createGroup _ _
  | Remote.listStreams _ _ _ | Remote.createStream _ _ _ => true
  | _ => false
  end.



(** How many calls of a trace satisfy [p]. *)
Fixpoint count (p : Remote.Call -> bool) (tr : list Remote.Call) : nat :=
  match tr with
  | [] => 0
  | c :: rest => if p c then S (count p rest) else count p rest
  end.

(** The operation of a call, without arguments and reply. *)
Inductive Op : Type :=
| OpListGroups | OpCreateGroup | OpSetRetention
| OpListStreams | OpCreateStream | OpAppendEvents.

Definition op_of (c : Remote.Call) : Op :=
  match c with
  | Remote.listGroups _ _ => OpListGroups
  | Remote.createGroup _ _ => OpCreateGroup
  | Remote.setRetention _ _ _ => OpSetRetention
  | Remote.listStreams _ _ _ => OpListStreams
  | Remote.createStream _ _ _ => OpCreateStream
  | Remote.appendEvents _ _ => OpAppendEvents
  end.

(** The cursor returned by the latest successful append to (group, stream)
    in a trace, if there was one. *)
Fixpoint lastAppend (group stream : string) (tr : list Remote.Call)
  : option (option string) :=
  match tr with
  | [] => None
  | c :: rest =>
      match lastAppend group stream rest with
      | Some next => Some next
      | None =>
          match c with
          | Remote.appendEvents params (inr next) =>
              if String.eqb (put_LogGroupName params) group
                 && String.eqb (put_LogStreamName params) stream
              then Some next else None
          | _ => None
          end
      end
  end.

(** ** The two halves of the body of [getSequenceToken]

    [ensureGroup] is the body up to the stream listing: the group is looked
    up and, if missing, created and given its retention.  [pickStream] is
    the rest, with [again] standing for the recursive call. *)
Section Halves.
Context {W : Type} `{aws : CloudWatchLogs W}.

Definition ensureGroup (group : string) : M W unit :=
  bind (groupExists group) (fun groupExists_ =>
    if negb groupExists_ then
      bind (createGroup group) (fun _ =>
        bind (gets (fun u => retentiondays (adapter u) !! group))
          (fun configured =>
             match configured with
             | Some retentionDays =>
                 createGroupRetentionPolicy group retentionDays
             | None => ret tt
             end))
    else ret tt).

Definition pickStream (group stream : string) (again : M W (option string))
  : M W (option string) :=
  bind (rpc (DescribeLogStreams group stream) (Remote.listStreams group stream))
    (fun resp =>
       let count := length resp in
       if (1 <? count)%nat then
         throw (errors_New (tooManyStreams count group stream))
       else
         match resp with
         | [] => bind (createStream group stream) (fun _ => again)
         | LogStream0 :: _ => ret (UploadSequenceToken LogStream0)
         end).

End Halves.

(** ** The runs of [getSequenceToken], as a relation

    [group_phase] is the first half of the body (the group is looked up and,
    if missing, created and given its retention); [resolution] is a whole
    run: the first half, the stream listing, and after a creation the run of
    the recursive call.  Both relate the world before, the calls made, the
    world after and the outcome. *)
Section Runs.
Context {W : Type} `{aws : CloudWatchLogs W}.
Variable days : gmap string Z.
Variables group stream : string.

Inductive group_phase : W -> list Remote.Call -> W -> res unit -> Prop :=
| gp_list_fails w w1 e :
    DescribeLogGroups group w = (w1, inl e) ->
    group_phase w [Remote.listGroups group (inl e)] w1 (Raise e)
| gp_found w w1 gs :
    DescribeLogGroups group w = (w1, inr gs) ->
    matchGroup group gs = true ->
    group_phase w [Remote.listGroups group (inr gs)] w1 (Val tt)
| gp_create_fails w w1 gs w2 e :
    DescribeLogGroups group w = (w1, inr gs) ->
    matchGroup group gs = false ->
    CreateLogGroup group w1 = (w2, inl e) ->
    group_phase w [Remote.listGroups group (inr gs);
                   Remote.createGroup group (inl e)] w2 (Raise e)
| gp_created w w1 gs w2 :
    DescribeLogGroups group w = (w1, inr gs) ->
    matchGroup group gs = false ->
    CreateLogGroup group w1 = (w2, inr tt) ->
    days !! group = None ->
    group_phase w [Remote.listGroups group (inr gs);
                   Remote.createGroup group (inr tt)] w2 (Val tt)
| gp_retention_fails w w1 gs w2 d w3 e :
    DescribeLogGroups group w = (w1, inr gs) ->
    matchGroup group gs = false ->
    CreateLogGroup group w1 = (w2, inr tt) ->
    days !! group = Some d ->
    PutRetentionPolicy group d w2 = (w3, inl e) ->
    group_phase w [Remote.listGroups group (inr gs);
                   Remote.createGroup group (inr tt);
                   Remote.setRetention group d (inl e)] w3 (Raise e)
| gp_retained w w1 gs w2 d w3 :
    DescribeLogGroups group w = (w1, inr gs) ->
    matchGroup group gs = false ->
    CreateLogGroup group w1 = (w2, inr tt) ->
    days !! group = Some d ->
    PutRetentionPolicy group d w2 = (w3, inr tt) ->
    group_phase w [Remote.listGroups group (inr gs);
                   Remote.createGroup group (inr tt);
                   Remote.setRetention group d (inr tt)] w3 (Val tt).

Inductive resolution : W -> list Remote.Call -> W -> res (option string) -> Prop :=
| rs_out_of_fuel w :
    resolution w [] w Spin
| rs_group_fails w tr w1 e :
    group_phase w tr w1 (Raise e) ->
    resolution w tr w1 (Raise e)
| rs_list_fails w tr w1 w2 e :
    group_phase w tr w1 (Val tt) ->
    DescribeLogStreams group stream w1 = (w2, inl e) ->
    resolution w (tr ++ [Remote.listStreams group stream (inl e)]) w2 (Raise e)
| rs_ambiguous w tr w1 w2 streams :
    group_phase w tr w1 (Val tt) ->
    DescribeLogStreams group stream w1 = (w2, inr streams) ->
    (1 < length streams)%nat ->
    resolution w (tr ++ [Remote.listStreams group stream (inr streams)]) w2
      (Raise (errors_New (tooManyStreams (length streams) group stream)))
| rs_found w tr w1 w2 LogStream0 :
    group_phase w tr w1 (Val tt) ->
    DescribeLogStreams group stream w1 = (w2, inr [LogStream0]) ->
    resolution w (tr ++ [Remote.listStreams group stream (inr [LogStream0])]) w2
      (Val (UploadSequenceToken LogStream0))
| rs_create_fails w tr w1 w2 w3 e :
    group_phase w tr w1 (Val tt) ->
    DescribeLogStreams group stream w1 = (w2, inr []) ->
    CreateLogStream group stream w2 = (w3, inl e) ->
    resolution w (tr ++ [Remote.listStreams group stream (inr []);
                         Remote.createStream group stream (inl e)]) w3 (Raise e)
| rs_again w tr w1 w2 w3 tr' w4 r :
    group_phase w tr w1 (Val tt) ->
    DescribeLogStreams group stream w1 = (w2, inr []) ->
    CreateLogStream group stream w2 = (w3, inr tt) ->
    resolution w3 tr' w4 r ->
    resolution w (tr ++ [Remote.listStreams group stream (inr []);
                         Remote.createStream group stream (inr tt)] ++ tr') w4 r.

End Runs.

(** ** Scenarios for the scripted service *)

Definition web1_at (token : string) : LogStream :=
  {| LogStreamName := "web-1"; UploadSequenceToken := Some token |}.

Definition web10 : LogStream :=
  {| LogStreamName := "web-10"; UploadSequenceToken := None |}.

(** The first message of [batch3]. *)
Definition one : CloudwatchMessage :=
  message "c1" "app" "web-1" "one" 1700000000123456789.

(** Two containers, [c1] and [c2], that log to the same destination
    (app, web-1), one batch each. *)
Definition from_c1 : CloudwatchMessage :=
  message "c1" "app" "web-1" "from c1" 1700000000000000000.

Definition from_c2 : CloudwatchMessage :=
  message "c2" "app" "web-1" "from c2" 1700000001000000000.

Definition batch_c1 : CloudwatchBatch := {| Msgs := [from_c1]; Size := 7 |}.

Definition batch_c2 : CloudwatchBatch := {| Msgs := [from_c2]; Size := 7 |}.

(** The service while [batch_c1], [batch_c2] and [batch_c1] again are
    delivered: the stream exists and is new; each accepted append returns
    the next token; the listing in between shows the token the stream
    expects; an append with a token that is no longer the expected one is
    refused. *)
Definition shared_script : list Script.Reply :=
  [Script.Groups ["app"]; Script.Streams [web1]; Script.Next (Some "T1");
   Script.Groups ["app"]; Script.Streams [web1_at "T1"]; Script.Next (Some "T2");
   Script.Fails (LibError "InvalidSequenceTokenException")].

(** Group missing, retention refused; the replies after the refusal are
    those a delivery that went on would get. *)
Definition refused_retention_script : list Script.Reply :=
  [Script.Groups []; Script.Ok;
   Script.Fails (LibError "InvalidParameterException");
   Script.Streams [web1]; Script.Next (Some "T1")].

(** Nothing exists yet and every call succeeds. *)
Definition first_delivery_script : list Script.Reply :=
  [Script.Groups []; Script.Ok; Script.Ok; Script.Streams []; Script.Ok;
   Script.Groups ["app"]; Script.Streams [web1]; Script.Next (Some "T1")].

(** The group exists; the stream listing stays empty [n] times, a stream
    being created each time, and then shows the stream. *)
Fixpoint dry (n : nat) : list Script.Reply :=
  match n with
  | O => [Script.Groups ["app"]; Script.Streams [web1]]
  | S n' =>
      [Script.Groups ["app"]; Script.Streams []; Script.Ok] ++ dry n'
  end.

Definition app_group : LogGroup := {| LogGroupName := "app" |}.

(** The calls that [getSequenceToken] makes against [dry n]. *)
Fixpoint dry_calls (n : nat) : list Remote.Call :=
  match n with
  | O => [Remote.listGroups "app" (inr [app_group]);
          Remote.listStreams "app" "web-1" (inr [web1])]
  | S n' =>
      [Remote.listGroups "app" (inr [app_group]);
       Remote.listStreams "app" "web-1" (inr []);
       Remote.createStream "app" "web-1" (inr tt)] ++ dry_calls n'
  end.


(** Two streams share the prefix web-1. *)
Definition ambiguous_script : list Script.Reply :=
  [Script.Groups ["app"]; Script.Streams [web1; web10]].

(** The listing is empty at first and shows two streams once the stream
    has been created. *)
Definition late_ambiguous_script : list Script.Reply :=
  [Script.Groups ["app"]; Script.Streams []; Script.Ok;
   Script.Groups ["app"]; Script.Streams [web1; web10]].

(** ** A host for the adapter, for runs on concrete inputs: no container
    can be inspected, the clock stands still, names are rendered to their
    defaults. *)
Module Host.
Definition InspectContainer (id : string) (d : unit)
  : unit * (error + DockerContainer) :=
  (d, inl (LibError "No such container")).

Definition Now (d : unit) : unit * Z := (d, 1700000000000000000).

Definition parseEnv (env : list string) : list string := env.

Definition renderEnvValue (a : CloudwatchAdapter) (envKey : string)
    (context : RenderContext (list string)) (defaultVal : string) : string :=
  defaultVal.

Definition ParseInt (s : string) : error + Z :=
  inl (LibError "invalid syntax").

Definition line : RouterMessage :=
  {| Container_ := {| ID := "c1"; Name := "/web";
                      Config := {| Env := []; Hostname := "web";
                                   Labels := ∅ |} |};
     Data := "hello" |}.
End Host.

(** ** More about traces *)

Definition is_createGroup (c : Remote.Call) : bool :=
  match c with Remote.createGroup _ _ => true | _ => false end.

Definition is_setRetention (c : Remote.Call) : bool :=
  match c with Remote.setRetention _ _ _ => true | _ => false end.

(** A group creation that succeeded. *)
Definition group_created (c : Remote.Call) : bool :=
  match c with Remote.createGroup _ (inr _) => true | _ => false end.

(** A group listing that came back without the group looked for. *)
Definition group_missing (c : Remote.Call) : bool :=
  match c with
  | Remote.listGroups group (inr LogGroups) => negb (matchGroup group LogGroups)
  | _ => false
  end.

(** The error a call came back with, if it failed. *)
Definition failure (c : Remote.Call) : option error :=
  match c with
  | Remote.listGroups _ (inl e) | Remote.createGroup _ (inl e)
  | Remote.setRetention _ _ (inl e) | Remote.listStreams _ _ (inl e)
  | Remote.createStream _ _ (inl e) | Remote.appendEvents _ (inl e) => Some e
  | _ => None
  end.

(** The call is about the group [group] and, where it names a stream, the
    stream [stream]. *)
Definition targets (group stream : string) (c : Remote.Call) : Prop :=
  match c with
  | Remote.listGroups g _ | Remote.createGroup g _ | Remote.setRetention g _ _ =>
      g = group
  | Remote.listStreams g s _ | Remote.createStream g s _ =>
      g = group /\ s = stream
  | Remote.appendEvents params _ =>
      put_LogGroupName params = group /\ put_LogStreamName params = stream
  end.

(** The verdicts of turns that submitted the batch. *)
Definition submitted (v : Verdict) : bool :=
  match v with
  | PutError _ | Posted _ => true
  | EmptyBatch | TokenError _ => false
  end.

(** ** Debug logging *)

Definition newline : string := String "010"%char "".

(** [strings.HasSuffix(s, suffix)]: whether [s] ends with [suffix]. *)
Fixpoint HasSuffix (s suffix : string) : bool :=
  String.eqb s suffix
  || match s with
     | EmptyString => false
     | String _ rest => HasSuffix rest suffix
     end.

(** [CloudwatchUploader.log]: the line handed to [log.Print], if any.
    [formatted] is [fmt.Sprintf(format, args...)]. *)
Definition log (debugSet : bool) (formatted : string) : option string :=
  if debugSet then
    let msg := formatted in
    let msg := "cloudwatch: " +:+ msg in
    let msg := if negb (HasSuffix msg newline) then msg +:+ newline else msg in
    Some msg
  else None.

(** ** Making the uploader *)

(** The fields of [router.Route] that the constructors read. *)
Record Route : Type := {
  Address : string;
  Options : gmap string string
}.

Section NewUploader.
(** [os.Getenv] and the making of the service client for a region
    ([cloudwatchlogs.New] on a new session) are taken as given. *)
Context {W : Type}.
Context (Getenv : string -> string).
Context (New : string -> W).

(** The region the client is made for, and whether the error line was
    printed. *)
Definition pickRegion (route : Route) (adapter : CloudwatchAdapter) : string * bool :=
  let region := Address route in
  if String.eqb region "auto" || String.eqb region "" then
    if String.eqb (Ec2Region adapter) "" then (region, true)
    else (Ec2Region adapter, false)
  else (region, false).

Definition pickDebug (route : Route) : bool :=
  let debugOption := bool_decide (is_Some (Options route !! "DEBUG")) in
  debugOption || negb (String.eqb (Getenv "DEBUG") "").

(** [NewCloudwatchUploader], with [adapter.Route] beside the adapter: the
    uploader, its debug flag, and the lines printed with [log.Println].
    The loop [Start] that it launches is a function of its own. *)
Definition NewCloudwatchUploader (route : Route) (adapter : CloudwatchAdapter)
  : CloudwatchUploader W * bool * list string :=
  let '(region, noRegion) := pickRegion route adapter in
  let debugSet := pickDebug route in
  ({| adapter := adapter; svc := New region; tokens := ∅ |},
   debugSet,
   (if noRegion then ["cloudwatch: ERROR - could not get region from EC2"]
    else [])
   ++ (if debugSet
       then ["cloudwatch: Creating AWS Cloudwatch client for region "
             +:+ region]
       else [])).

End NewUploader.

(** ** Making the adapter *)

(** Modelled from the spec: [EC2Info] is declared with the EC2 lookup,
    which is not embedded here; [NewCloudwatchAdapter] reads these two
    fields. *)
Record EC2Info : Type := {
  InstanceID : string;
  Region : string
}.

Section NewAdapter.
(** [os.Getenv], [docker.NewClient], [os.Hostname] and [NewEC2Info] are
    taken as given; [C] is the type of Docker clients. *)
Context {C : Type}.
Context (Getenv : string -> string).
Context (NewClient : string -> error + C).
Context (Hostname : error + string).
Context (NewEC2Info : Route -> error + EC2Info).

Definition dockerHost : string :=
  let envVal := Getenv "DOCKER_HOST" in
  if negb (String.eqb envVal "") then envVal
  else "unix:///var/run/docker.sock".

(** [NewCloudwatchAdapter]: the Docker client and the adapter with its
    empty caches.  The batcher it starts is not part of this model. *)
Definition NewCloudwatchAdapter (route : Route) : error + C * CloudwatchAdapter :=
  match NewClient dockerHost with
  | inl err => inl err
  | inr client =>
      match Hostname with
      | inl err => inl err
      | inr hostname =>
          match NewEC2Info route with
          | inl err => inl err
          | inr ec2info =>
              inr (client,
                   {| OsHost := hostname;
                      Ec2Instance := InstanceID ec2info;
                      Ec2Region := Region ec2info;
                      groupnames := ∅;
                      streamnames := ∅;
                      retentiondays := ∅ |})
          end
      end
  end.

End NewAdapter.

(** ** More about the adapter loop *)

(** The container [id] has no usable names in the caches: the group name or
    the stream name is missing or empty, which is when [Stream] inspects
    the container. *)
Definition unnamed (a : CloudwatchAdapter) (id : string) : Prop :=
  default "" (streamnames a !! id) = "" \/ default "" (groupnames a !! id) = "".

(** The [RenderContext] that [Stream] builds for a message. *)
Definition renderContext {E : Type} (parseEnv : list string -> E)
    (a : CloudwatchAdapter) (m : RouterMessage) (containerData : DockerContainer)
  : RenderContext E :=
  {| ctx_Env := parseEnv (Env (Config (Container_ m)));
     ctx_Labels := Labels (Config containerData);
     ctx_Name := TrimPrefixSlash (Name (Container_ m));
     ctx_ID := ID (Container_ m);
     ctx_Host := Hostname (Config (Container_ m));
     ctx_LoggerHost := OsHost a;
     ctx_InstanceID := Ec2Instance a;
     ctx_Region := Ec2Region a |}.

(** The message that [Stream] sends to the batcher for [m] under the names
    [groupName] and [streamName] at the time [now]. *)
Definition tagged (m : RouterMessage) (groupName streamName : string) (now : Z)
  : CloudwatchMessage :=
  {| Message := Data m; Group := groupName; Stream := streamName;
     Time := now; Container := ID (Container_ m) |}.

(** ** More scenarios *)

(** A batch whose second message names another group and stream than its
    first. *)
Definition mixed_batch : CloudwatchBatch :=
  {| Msgs := [from_c1; message "c2" "other" "db-1" "from c2" 1700000001000000000];
     Size := 14 |}.

(** The stream exists and is new; two appends are accepted. *)
Definition reuse_script : list Script.Reply :=
  [Script.Groups ["app"]; Script.Streams [web1];
   Script.Next (Some "T1"); Script.Next (Some "T2")].

(** Every append is refused. *)
Definition refusing_script : list Script.Reply :=
  [Script.Fails (LibError "InvalidSequenceTokenException");
   Script.Fails (LibError "InvalidSequenceTokenException")].

(** An uploader that holds the token T1 for the container [c1]. *)
Definition holding_T1 (script : list Script.Reply)
  : CloudwatchUploader (list Script.Reply) :=
  set_token "c1" "T1" (fresh noAdapter script).


(** A route that leaves the region to EC2. *)
Definition auto_route : Route := {| Address := "auto"; Options := ∅ |}.

(** ** A host whose Docker daemon answers: a container can be inspected as
    many times as the world says, the retention is rendered as 14 and
    every other value as its default. *)
Module Dock.
Definition InspectContainer (id : string) (d : nat)
  : nat * (error + DockerContainer) :=
  match d with
  | O => (O, inl (LibError "No such container"))
  | S d' =>
      (d', inr {| ID := id; Name := "/web";
                  Config := {| Env := []; Hostname := "web";
                               Labels := ∅ |} |})
  end.

Definition Now (d : nat) : nat * Z := (d, 1700000000000000000).

Definition parseEnv (env : list string) : list string := env.

Definition renderEnvValue (a : CloudwatchAdapter) (envKey : string)
    (context : RenderContext (list string)) (defaultVal : string) : string :=
  if String.eqb envKey "LOGSPOUT_CLOUDWATCH_RETENTION_DAYS" then "14"
  else defaultVal.

Definition ParseInt (s : string) : error + Z :=
  if String.eqb s "14" then inr 14 else inl (LibError "invalid syntax").

Definition container (name : string) : DockerContainer :=
  {| ID := "c1"; Name := name;
     Config := {| Env := []; Hostname := "web"; Labels := ∅ |} |}.

(** A line of the container [c1], named web. *)
Definition line : RouterMessage :=
  {| Container_ := container "/web"; Data := "hello" |}.

(** A line of a container whose name is only the slash, so that its
    default stream name is empty. *)
Definition nameless : RouterMessage :=
  {| Container_ := container "/"; Data := "hello" |}.

(** The adapter after [line] went through. *)
Definition settled : CloudwatchAdapter :=
  {| OsHost := "host"; Ec2Region := "eu-west-1"; Ec2Instance := "i-0";
     groupnames := {[ "c1" := "host" ]};
     streamnames := {[ "c1" := "web" ]};
     retentiondays := {[ "host" := 14 ]} |}.

Definition body := Stream_body InspectContainer Now parseEnv renderEnvValue ParseInt.
Definition loop := Stream_loop InspectContainer Now parseEnv renderEnvValue ParseInt.

(** The start of the process: no DOCKER_HOST, a client for whatever host
    is asked, the host name "host" and an EC2 instance in eu-west-1. *)
Definition Getenv (name : string) : string := "".
Definition NewClient (host : string) : error + string := inr host.
Definition Hostname : error + string := inr "host".
Definition NewEC2Info (route : Route) : error + EC2Info :=
  inr {| InstanceID := "i-0"; Region := "eu-west-1" |}.

(** The client's inspection: the Docker daemon of [InspectContainer]. *)
Definition Inspect (client : string) (id : string) (d : nat)
  : nat * (error + DockerContainer) := InspectContainer id d.
End Dock.

(** * Properties *)

(** ** Events of a batch *)

Lemma buildEvents_map (Msgs : list CloudwatchMessage) (events : list InputLogEvent) :
  buildEvents events Msgs = events ++ map toEvent Msgs.
Proof.
  revert events.
  induction Msgs as [|msg rest IH]; intros events; simpl.
  - by rewrite app_nil_r.
  - by rewrite IH, <- app_assoc.
Qed.

Example buildEvents_batch3 : buildEvents [] (Msgs batch3) = events3.
Proof. reflexivity. Qed.

Lemma toEvent_truncates (msg : CloudwatchMessage) :
  Z.abs (Time msg - ev_Timestamp (toEvent msg) * 1000000) < 1000000
  /\ Z.abs (ev_Timestamp (toEvent msg) * 1000000) <= Z.abs (Time msg).
Proof.
  unfold toEvent; simpl.
  pose proof (Z.quot_rem' (Time msg) 1000000) as Hqr.
  pose proof (Z.rem_bound_abs (Time msg) 1000000 ltac:(lia)) as Hb.
  pose proof (Z.rem_sign_nz (Time msg) 1000000 ltac:(lia)) as Hs.
  destruct (Z.eq_dec (Time msg `rem` 1000000) 0) as [Hz|Hnz].
  - split; lia.
  - specialize (Hs Hnz).
    assert (Z.sgn (Time msg `rem` 1000000) = Z.sgn (Time msg)) by exact Hs.
    split; [lia|].
    destruct (Z.sgn_spec (Time msg)) as [[? ?]|[[? ?]|[? ?]]];
    destruct (Z.sgn_spec (Time msg `rem` 1000000)) as [[? ?]|[[? ?]|[? ?]]]; lia.
Qed.


(** ** Every run of [getSequenceToken] is a [resolution] *)

Section UploaderFacts.
Context {W : Type} `{aws : CloudWatchLogs W}.
Implicit Types (u : CloudwatchUploader W) (msg : CloudwatchMessage).
Implicit Types (tr : list Remote.Call).

Lemma with_svc_id u : with_svc u (svc u) = u.
Proof. by destruct u. Qed.

Lemma bind_inv {A B} (c : M W A) (k : A -> M W B) u u' tr r :
  bind c k u = (u', tr, r) ->
  (exists u1 t1 a t2,
      c u = (u1, t1, Val a) /\ k a u1 = (u', t2, r) /\ tr = t1 ++ t2)
  \/ (exists e, c u = (u', tr, Raise e) /\ r = Raise e)
  \/ (c u = (u', tr, Spin) /\ r = Spin).
Proof.
  unfold bind. destruct (c u) as [[u1 t1] [a|e|]].
  - destruct (k a u1) as [[u2 t2] r2] eqn:Hk. intros [= <- <- <-].
    left. by exists u1, t1, a, t2.
  - intros [= <- <- <-]. right; left. by exists e.
  - intros [= <- <- <-]. by right; right.
Qed.

Lemma rpc_inv {A} (op : W -> W * (error + A)) (log : error + A -> Remote.Call)
    u u' tr r :
  rpc op log u = (u', tr, r) ->
  exists w out,
    op (svc u) = (w, out) /\ u' = with_svc u w /\ tr = [log out]
    /\ r = match out with inl e => Raise e | inr a => Val a end.
Proof.
  unfold rpc. destruct (op (svc u)) as [w out]. intros [= <- <- <-].
  by exists w, out.
Qed.

(** Takes a run of a method apart, call by call. *)
Ltac run_inv H :=
  let u1 := fresh "u" in
  let t1 := fresh "t" in
  let a := fresh "a" in
  let t2 := fresh "t" in
  let e := fresh "e" in
  let Hc := fresh "Hc" in
  let Hk := fresh "Hk" in
  let Ht := fresh "Ht" in
  apply bind_inv in H;
  destruct H as [(u1 & t1 & a & t2 & Hc & Hk & Ht)
                | [(e & Hc & Ht) | [Hc Ht]]];
  simplify_eq.

Ltac rpc_inv H :=
  let w := fresh "w" in
  let out := fresh "out" in
  let Hop := fresh "Hop" in
  let Hr := fresh "Hr" in
  let Hu := fresh "Hu" in
  let Ht := fresh "Ht" in
  apply rpc_inv in H;
  destruct H as (w & out & Hop & Hu & Ht & Hr);
  destruct out as [?|?]; simplify_eq.

Ltac units := repeat match goal with x : unit |- _ => destruct x end.

Ltac ret_inv H := unfold ret, throw, gets in H; simplify_eq; simpl in *.

Lemma bind_assoc {A B C} (c : M W A) (k : A -> M W B) (k' : B -> M W C) u :
  bind c (fun a => bind (k a) k') u = bind (bind c k) k' u.
Proof.
  unfold bind. destruct (c u) as [[u1 t1] [a|e|]]; [|done|done].
  destruct (k a u1) as [[u2 t2] [b|e|]]; [|done|done].
  destruct (k' b u2) as [[u3 t3] r]. by rewrite app_assoc.
Qed.

Lemma bind_Val {A B} (c : M W A) (k : A -> M W B) u u1 t1 a u2 t2 r :
  c u = (u1, t1, Val a) -> k a u1 = (u2, t2, r) ->
  bind c k u = (u2, t1 ++ t2, r).
Proof. intros Hc Hk. unfold bind. by rewrite Hc, Hk. Qed.

Lemma getSequenceToken_S fuel msg u :
  getSequenceToken (S fuel) msg u
  = bind (ensureGroup (Group msg))
      (fun _ => pickStream (Group msg) (Stream msg) (getSequenceToken fuel msg)) u.
Proof. simpl. by rewrite bind_assoc. Qed.

Lemma ensureGroup_run group u u' tr (r : res unit) :
  ensureGroup group u = (u', tr, r) ->
  group_phase (retentiondays (adapter u)) group (svc u) tr (svc u') r
  /\ u' = with_svc u (svc u').
Proof.
  intros H.
  unfold ensureGroup, groupExists, createGroup, createGroupRetentionPolicy in H.
  run_inv H.
  - run_inv Hc. rpc_inv Hc0. ret_inv Hk0.
    destruct (matchGroup group l) eqn:Hm; simpl in Hk.
    + ret_inv Hk. split; [|done]. by constructor.
    + run_inv Hk.
      * rpc_inv Hc. units. run_inv Hk0. ret_inv Hc.
        destruct (retentiondays (adapter u) !! group) as [d|] eqn:Hd.
        -- rpc_inv Hk; units; (split; [|done]).
           ++ by eapply gp_retention_fails.
           ++ by eapply gp_retained.
        -- ret_inv Hk. split; [|done]. by eapply gp_created.
      * rpc_inv Hc. split; [|done]. by eapply gp_create_fails.
      * rpc_inv Hc.
  - run_inv Hc. rpc_inv Hc0. split; [|done]. by constructor.
  - run_inv Hc. rpc_inv Hc0.
Qed.

Lemma getSequenceToken_resolution fuel msg u u' tr r :
  getSequenceToken fuel msg u = (u', tr, r) ->
  resolution (retentiondays (adapter u)) (Group msg) (Stream msg)
    (svc u) tr (svc u') r
  /\ u' = with_svc u (svc u').
Proof.
  revert u u' tr r. induction fuel as [|fuel IH]; intros u u' tr r H.
  { simpl in H. simplify_eq. split; [constructor | by rewrite with_svc_id]. }
  rewrite getSequenceToken_S in H. run_inv H.
  - apply ensureGroup_run in Hc as [Hgp Hu]. units.
    unfold pickStream, createStream in Hk. run_inv Hk.
    + rpc_inv Hc. simpl in Hgp.
      destruct (1 <? length l)%nat eqn:Hcount.
      * ret_inv Hk0. split; [|by rewrite Hu].
        eapply rs_ambiguous; eauto. by apply Nat.ltb_lt.
      * destruct l as [|LogStream0 [|? ?]]; [| |done].
        -- run_inv Hk0.
           ++ rpc_inv Hc. units. apply IH in Hk as [Hres Hu']. simpl in *.
              split; [|by rewrite Hu', Hu].
              eapply (rs_again _ _ _ _ t _ _ _ t1); eauto.
              by rewrite Hu in Hres.
           ++ rpc_inv Hc. split; [|by rewrite Hu]. simpl.
              eapply rs_create_fails; eauto.
           ++ rpc_inv Hc.
        -- ret_inv Hk0. split; [|by rewrite Hu].
           eapply rs_found; eauto.
    + rpc_inv Hc. split; [|by rewrite Hu]. eapply rs_list_fails; eauto.
    + rpc_inv Hc.
  - apply ensureGroup_run in Hc as [Hgp Hu]. split; [|done].
    by apply rs_group_fails.
  - apply ensureGroup_run in Hc as [Hgp Hu]. inversion Hgp.
Qed.

(** ** Fuel: a run that returns is the same run on more fuel *)

Lemma pickStream_more group stream (again again' : M W (option string)) u u' tr r :
  (forall u u' tr r, again u = (u', tr, r) -> r <> Spin -> again' u = (u', tr, r)) ->
  pickStream group stream again u = (u', tr, r) -> r <> Spin ->
  pickStream group stream again' u = (u', tr, r).
Proof.
  intros Hmore H Hr. unfold pickStream in *. run_inv H.
  - eapply bind_Val; [done|]. simpl in *.
    destruct (1 <? length a)%nat; [done|].
    destruct a as [|LogStream0 ?]; [|done].
    run_inv Hk.
    + eapply bind_Val; [done|]. by apply Hmore.
    + unfold bind. by rewrite Hc0.
  - unfold bind. by rewrite Hc.
Qed.

Lemma getSequenceToken_more fuel fuel' msg u u' tr r :
  getSequenceToken fuel msg u = (u', tr, r) -> r <> Spin ->
  (fuel <= fuel')%nat ->
  getSequenceToken fuel' msg u = (u', tr, r).
Proof.
  revert fuel' u u' tr r.
  induction fuel as [|fuel IH]; intros fuel' u u' tr r H Hr Hle.
  { simpl in H. by simplify_eq. }
  destruct fuel' as [|fuel']; [lia|].
  rewrite getSequenceToken_S in *. run_inv H.
  - eapply bind_Val; [done|].
    eapply pickStream_more; [|done|done].
    intros u2 u2' tr2 r2 H2 Hr2. apply (IH fuel'); [done|done|lia].
  - unfold bind. by rewrite Hc.
Qed.

(** ** What the traces of a resolution look like *)

Lemma count_app p tr tr' : count p (tr ++ tr') = (count p tr + count p tr')%nat.
Proof. induction tr as [|c tr IH]; simpl; [done|]. destruct (p c); lia. Qed.

Lemma group_phase_calls days group w tr w' r :
  group_phase days group w tr w' r ->
  forall p, (forall c, p c = true -> op_of c = OpListStreams
                       \/ op_of c = OpCreateStream \/ op_of c = OpAppendEvents) ->
  count p tr = 0%nat.
Proof.
  intros Hgp p Hp.
  assert (Hg : forall c, (op_of c = OpListGroups \/ op_of c = OpCreateGroup
                          \/ op_of c = OpSetRetention) -> p c = false).
  { intros c Hc. destruct (p c) eqn:Hpc; [|done].
    apply Hp in Hpc. destruct Hc as [?|[?|?]], Hpc as [?|[?|?]]; congruence. }
  inversion Hgp; subst; simpl; rewrite ?Hg; simpl; auto.
Qed.

Ltac group_calls :=
  repeat match goal with
  | Hgp : group_phase _ _ _ ?t _ _ |- context [count ?p ?t] =>
      rewrite (group_phase_calls _ _ _ _ _ _ Hgp p)
        by (let c := fresh in
            intros c; destruct c; simpl; intros; try discriminate; auto)
  end.

Lemma resolution_no_append days group stream w tr w' r :
  resolution days group stream w tr w' r -> count is_append tr = 0%nat.
Proof.
  induction 1; rewrite ?count_app; simpl; group_calls; done.
Qed.



(** ** The cases of [fetchToken] and [deliver] *)

Lemma fetchToken_inv fuel msg u u1 t1 r :
  fetchToken fuel msg u = (u1, t1, r) ->
  (exists cachedToken,
      tokens u !! Container msg = Some cachedToken
      /\ u1 = u /\ t1 = [] /\ r = Val (Some cachedToken))
  \/ (tokens u !! Container msg = None
      /\ exists u0,
          getSequenceToken fuel msg u = (u0, t1, r)
          /\ u1 = match r with
                  | Val (Some awsToken) => set_token (Container msg) awsToken u0
                  | _ => u0
                  end).
Proof.
  unfold fetchToken. destruct (tokens u !! Container msg) as [cachedToken|].
  - intros [= <- <- <-]. left. by exists cachedToken.
  - destruct (getSequenceToken fuel msg u) as [[u0 t0] [[awsToken|]|e|]];
      intros [= <- <- <-]; right; (split; [done|]); by exists u0.
Qed.

Lemma deliver_inv fuel batch u u' tr v :
  deliver fuel batch u = (u', tr, v) ->
  (Msgs batch = [] /\ u' = u /\ tr = [] /\ v = Val EmptyBatch)
  \/ exists msg rest u1 t1 r,
      Msgs batch = msg :: rest
      /\ fetchToken fuel msg u = (u1, t1, r)
      /\ match r with
         | Spin => u' = u1 /\ tr = t1 /\ v = Spin
         | Raise err => u' = u1 /\ tr = t1 /\ v = Val (TokenError err)
         | Val token =>
             exists w out,
               PutLogEvents (putParams batch msg token) (svc u1) = (w, out)
               /\ tr = t1 ++ [Remote.appendEvents (putParams batch msg token) out]
               /\ match out with
                  | inl err => u' = with_svc u1 w /\ v = Val (PutError err)
                  | inr resp =>
                      u' = match resp with
                           | Some NextSequenceToken =>
                               set_token (Container msg) NextSequenceToken
                                 (with_svc u1 w)
                           | None => with_svc u1 w
                           end
                      /\ v = Val (Posted resp)
                  end
         end.
Proof.
  unfold deliver. destruct (Msgs batch) as [|msg rest].
  - intros [= <- <- <-]. by left.
  - destruct (fetchToken fuel msg u) as [[u1 t1] [token|err|]] eqn:Hf.
    + destruct (PutLogEvents _ (svc u1)) as [w [err|resp]] eqn:Hp;
        intros [= <- <- <-]; right;
        exists msg, rest, u1, t1, (Val token); (split; [done|split; [done|]]);
        [by exists w, (inl err) | by exists w, (inr resp)].
    + intros [= <- <- <-]. right. by exists msg, rest, u1, t1, (Raise err).
    + intros [= <- <- <-]. right. by exists msg, rest, u1, t1, Spin.
Qed.


Lemma count_split p pre c post :
  p c = true -> count p (pre ++ c :: post) <> 0%nat.
Proof. intros Hp. rewrite count_app. simpl. rewrite Hp. lia. Qed.


(** ** Ambiguous stream listings *)


(** ** The group-existence check *)

Lemma matchGroup_spec group LogGroups :
  matchGroup group LogGroups = true
  <-> exists g, g ∈ LogGroups /\ LogGroupName g = group.
Proof.
  induction LogGroups as [|g0 rest IH]; simpl.
  - split; [done|]. intros (g & Hin & _). by apply elem_of_nil in Hin.
  - destruct (String.eqb_spec (LogGroupName g0) group) as [Heq|Hne].
    + split; [|done]. intros _. exists g0. split; [apply elem_of_cons; by left|done].
    + rewrite IH. split.
      * intros (g & Hin & Hg). exists g. split; [apply elem_of_cons; by right|done].
      * intros (g & Hin & Hg). apply elem_of_cons in Hin as [->|Hin]; [done|].
        by exists g.
Qed.

(** C8. When the listing of the groups under the prefix [group] succeeds,
    [groupExists] makes that one call and answers [true] exactly when the
    listing holds a group whose name equals [group]; listed groups whose
    names all differ from [group], such as names that only extend it, give
    [false]. *)
Theorem groupExists_exact_name group u w LogGroups :
  DescribeLogGroups group (svc u) = (w, inr LogGroups) ->
  exists found,
    groupExists group u
    = (with_svc u w, [Remote.listGroups group (inr LogGroups)], Val found)
    /\ (found = true <-> exists g, g ∈ LogGroups /\ LogGroupName g = group)
    /\ ((forall g, g ∈ LogGroups ->
            String.prefix group (LogGroupName g) = true /\ LogGroupName g <> group) ->
        found = false).
Proof.
  intros Hcall. exists (matchGroup group LogGroups). split; [|split].
  - unfold groupExists, bind, rpc, ret. by rewrite Hcall.
  - apply matchGroup_spec.
  - intros Hall. destruct (matchGroup group LogGroups) eqn:Hm; [|done].
    apply matchGroup_spec in Hm as (g & Hin & Hg). by destruct (Hall g Hin).
Qed.

(** ** The events that are submitted *)

(** C9. Every append call made for a batch carries one event per message of
    the batch, in the order of the batch: the event at a position has the
    text of the message at that position, and its timestamp is the message's
    time in nanoseconds divided by 1000000 towards zero, that is, cut down
    to whole milliseconds. *)
Theorem append_carries_batch_events fuel batch u u' tr v params out :
  deliver fuel batch u = (u', tr, v) ->
  Remote.appendEvents params out ∈ tr ->
  LogEvents params = map toEvent (Msgs batch)
  /\ length (LogEvents params) = length (Msgs batch)
  /\ forall (i : nat) msg,
       Msgs batch !! i = Some msg ->
       exists ev,
         LogEvents params !! i = Some ev
         /\ ev_Message ev = Message msg
         /\ ev_Timestamp ev = Time msg ÷ 1000000
         /\ Z.abs (Time msg - ev_Timestamp ev * 1000000) < 1000000
         /\ Z.abs (ev_Timestamp ev * 1000000) <= Z.abs (Time msg).
Proof.
  intros Hd Hin.
  assert (Hev : LogEvents params = map toEvent (Msgs batch)).
  { apply deliver_inv in Hd
      as [(_ & _ & -> & _) | (msg & rest & u1 & t1 & r & HM & Hf & Hr)].
    { by apply elem_of_nil in Hin. }
    assert (Hno : count is_append t1 = 0%nat).
    { apply fetchToken_inv in Hf
        as [(tok & _ & _ & -> & _) | (_ & u0 & Hg & _)]; [done|].
      apply getSequenceToken_resolution in Hg as [Hres _].
      by eapply resolution_no_append. }
    assert (Hnotin : Remote.appendEvents params out ∉ t1).
    { intros Hin1. apply list_elem_of_split in Hin1 as (l1 & l2 & ->).
      by apply (count_split is_append l1 (Remote.appendEvents params out) l2). }
    destruct r as [token|err|]; [|by destruct Hr as (_ & -> & _)..].
    destruct Hr as (w & out' & _ & -> & _).
    apply elem_of_app in Hin as [Hin|Hin]; [done|].
    apply list_elem_of_singleton in Hin. injection Hin as -> _.
    unfold putParams; simpl. by rewrite buildEvents_map. }
  split; [done|]. split; [by rewrite Hev, length_map|].
  intros i msg Hi. exists (toEvent msg). split.
  - rewrite Hev. change (map toEvent (Msgs batch)) with (toEvent <$> Msgs batch).
    by rewrite list_lookup_fmap, Hi.
  - repeat split; try done; apply toEvent_truncates.
Qed.

(** ** A delivery with a cached token *)

Lemma deliver_cached fuel batch msg rest u cachedToken :
  Msgs batch = msg :: rest ->
  tokens u !! Container msg = Some cachedToken ->
  deliver fuel batch u
  = let params := putParams batch msg (Some cachedToken) in
    let '(w, out) := PutLogEvents params (svc u) in
    (match out with
     | inr (Some NextSequenceToken) =>
         set_token (Container msg) NextSequenceToken (with_svc u w)
     | _ => with_svc u w
     end,
     [Remote.appendEvents params out],
     Val match out with inl err => PutError err | inr resp => Posted resp end).
Proof.
  intros HM Htok. unfold deliver, fetchToken. rewrite HM, Htok. simpl.
  by destruct (PutLogEvents _ (svc u)) as [w [err|[next|]]].
Qed.

(** The cache is read and written under the container of the first message
    of the batch, and nowhere else. *)
Lemma deliver_other_containers fuel batch u u' tr v k :
  deliver fuel batch u = (u', tr, v) ->
  (forall msg, head (Msgs batch) = Some msg -> Container msg <> k) ->
  tokens u' !! k = tokens u !! k.
Proof.
  intros Hd Hk.
  apply deliver_inv in Hd
    as [(_ & -> & _) | (msg & rest & u1 & t1 & r & HM & Hf & Hr)]; [done|].
  rewrite HM in Hk. specialize (Hk msg eq_refl).
  assert (H1 : tokens u1 !! k = tokens u !! k).
  { apply fetchToken_inv in Hf
      as [(tok & _ & -> & _) | (_ & u0 & Hg & ->)]; [done|].
    apply getSequenceToken_resolution in Hg as [_ Hu0].
    destruct r as [[awsToken|]| |]; simpl; rewrite ?lookup_insert_ne by done;
      by rewrite Hu0. }
  destruct r as [token|err|]; [|by destruct Hr as (-> & _)..].
  destruct Hr as (w & [err|[next|]] & _ & _ & -> & _); simpl;
    rewrite ?lookup_insert_ne by done; done.
Qed.

Lemma deliver_more fuel fuel' batch u u' tr v :
  deliver fuel batch u = (u', tr, Val v) ->
  (fuel <= fuel')%nat ->
  deliver fuel' batch u = (u', tr, Val v).
Proof.
  intros H Hle. unfold deliver, fetchToken in *.
  destruct (Msgs batch) as [|msg rest]; [done|].
  destruct (tokens u !! Container msg) as [cachedToken|]; [done|].
  destruct (getSequenceToken fuel msg u) as [[u1 t1] r] eqn:Hg.
  assert (Hr : r <> Spin) by (intros ->; done).
  by rewrite (getSequenceToken_more fuel fuel' msg u u1 t1 r Hg Hr Hle).
Qed.

(** ** A failed append *)


(** ** Creating the group and its retention *)

Ltac run_body :=
  repeat (progress (unfold bind, groupExists, createGroup,
                      createGroupRetentionPolicy, createStream, rpc, ret, gets,
                      throw; simpl)).

(** C2, as the code has it. If the group is missing, its creation succeeds
    and the retention call that follows fails, [getSequenceToken] returns
    that error right after the failed call, and the batch is dropped: the
    three calls (listing, creation, retention) are all the delivery makes,
    no stream is listed or created, nothing is appended, and the token cache
    is untouched. *)
Theorem retention_failure_drops_batch fuel batch msg rest u
    w1 LogGroups w2 retentionDays w3 e :
  Msgs batch = msg :: rest ->
  tokens u !! Container msg = None ->
  DescribeLogGroups (Group msg) (svc u) = (w1, inr LogGroups) ->
  matchGroup (Group msg) LogGroups = false ->
  CreateLogGroup (Group msg) w1 = (w2, inr tt) ->
  retentiondays (adapter u) !! Group msg = Some retentionDays ->
  PutRetentionPolicy (Group msg) retentionDays w2 = (w3, inl e) ->
  let calls := [Remote.listGroups (Group msg) (inr LogGroups);
                Remote.createGroup (Group msg) (inr tt);
                Remote.setRetention (Group msg) retentionDays (inl e)] in
  getSequenceToken (S fuel) msg u = (with_svc u w3, calls, Raise e)
  /\ deliver (S fuel) batch u = (with_svc u w3, calls, Val (TokenError e))
  /\ count is_append calls = 0%nat
  /\ tokens (with_svc u w3) = tokens u.
Proof.
  intros HM Hnone Hlg Hm Hcg Hdays Hret calls.
  assert (Hg : getSequenceToken (S fuel) msg u = (with_svc u w3, calls, Raise e)).
  { simpl. run_body. rewrite Hlg. simpl. rewrite Hm. simpl. rewrite Hcg. simpl.
    rewrite Hdays. simpl. by rewrite Hret. }
  split; [done|]. split; [|done].
  unfold deliver, fetchToken. by rewrite HM, Hnone, Hg.
Qed.

(** ** The first delivery to a destination that does not exist yet *)

(** C4, as the code has it. For a batch whose group is missing and whose
    first message's container has no cached token, with every remote call
    succeeding, the calls of the delivery are, in this order: the group
    listing, the group creation, the retention call if a retention is
    configured for the group, the stream listing (empty), the stream
    creation, then a second group listing (which now finds the group), the
    second stream listing (one stream, without a token), and the append,
    which carries the events of the batch in order and no token.  The next
    token that the append returns, if any, is then in the cache. *)
Theorem first_delivery_call_sequence fuel batch msg rest u
    w1 LogGroups w2 w3 w4 w5 w6 LogGroups' w7 LogStream0 w8 resp :
  Msgs batch = msg :: rest ->
  tokens u !! Container msg = None ->
  DescribeLogGroups (Group msg) (svc u) = (w1, inr LogGroups) ->
  matchGroup (Group msg) LogGroups = false ->
  CreateLogGroup (Group msg) w1 = (w2, inr tt) ->
  match retentiondays (adapter u) !! Group msg with
  | Some retentionDays =>
      PutRetentionPolicy (Group msg) retentionDays w2 = (w3, inr tt)
  | None => w3 = w2
  end ->
  DescribeLogStreams (Group msg) (Stream msg) w3 = (w4, inr []) ->
  CreateLogStream (Group msg) (Stream msg) w4 = (w5, inr tt) ->
  DescribeLogGroups (Group msg) w5 = (w6, inr LogGroups') ->
  matchGroup (Group msg) LogGroups' = true ->
  DescribeLogStreams (Group msg) (Stream msg) w6 = (w7, inr [LogStream0]) ->
  UploadSequenceToken LogStream0 = None ->
  PutLogEvents (putParams batch msg None) w7 = (w8, inr resp) ->
  let u' := match resp with
            | Some NextSequenceToken =>
                set_token (Container msg) NextSequenceToken (with_svc u w8)
            | None => with_svc u w8
            end in
  deliver (S (S fuel)) batch u
  = (u',
     [Remote.listGroups (Group msg) (inr LogGroups);
      Remote.createGroup (Group msg) (inr tt)]
     ++ match retentiondays (adapter u) !! Group msg with
        | Some retentionDays =>
            [Remote.setRetention (Group msg) retentionDays (inr tt)]
        | None => []
        end
     ++ [Remote.listStreams (Group msg) (Stream msg) (inr []);
         Remote.createStream (Group msg) (Stream msg) (inr tt);
         Remote.listGroups (Group msg) (inr LogGroups');
         Remote.listStreams (Group msg) (Stream msg) (inr [LogStream0]);
         Remote.appendEvents (putParams batch msg None) (inr resp)],
     Val (Posted resp))
  /\ LogEvents (putParams batch msg None) = map toEvent (Msgs batch)
  /\ SequenceToken (putParams batch msg None) = None
  /\ tokens u' = match resp with
                 | Some NextSequenceToken =>
                     <[Container msg := NextSequenceToken]> (tokens u)
                 | None => tokens u
                 end.
Proof.
  intros HM Hnone Hlg Hm Hcg Hret Hls Hcs Hlg' Hm' Hls' Htok Hput u'.
  split; [|split; [|split]].
  - unfold deliver, fetchToken. rewrite HM, Hnone.
    simpl getSequenceToken. run_body. rewrite Hlg. simpl. rewrite Hm. simpl.
    rewrite Hcg. simpl.
    destruct (retentiondays (adapter u) !! Group msg) as [retentionDays|];
      simpl; [rewrite Hret|subst w3]; simpl;
      rewrite Hls; simpl; rewrite Hcs; simpl; rewrite Hlg'; simpl; rewrite Hm'; simpl;
      rewrite Hls'; simpl; rewrite Htok; simpl; rewrite Hput; simpl;
      by destruct resp.
  - unfold putParams; simpl. by rewrite buildEvents_map.
  - done.
  - subst u'. by destruct resp.
Qed.

(** ** Creating the stream and going round again *)



(** ** More about the runs of [getSequenceToken] *)

Lemma group_phase_targets days group w tr w' r stream :
  group_phase days group w tr w' r -> Forall (targets group stream) tr.
Proof. inversion 1; subst; repeat constructor. Qed.

Lemma resolution_targets days group stream w tr w' r :
  resolution days group stream w tr w' r -> Forall (targets group stream) tr.
Proof.
  induction 1; rewrite ?Forall_app; repeat split;
    eauto using group_phase_targets; repeat constructor; done.
Qed.

Lemma group_phase_outcome days group w tr w' r :
  group_phase days group w tr w' r ->
  match r with
  | Val _ => Forall (fun c => failure c = None) tr
  | Raise e =>
      exists pre c,
        tr = pre ++ [c] /\ failure c = Some e
        /\ Forall (fun c => failure c = None) pre
  | Spin => False
  end.
Proof.
  inversion 1; subst; simpl.
  - by exists [], (Remote.listGroups group (inl e)).
  - repeat constructor.
  - exists [Remote.listGroups group (inr gs)], (Remote.createGroup group (inl e)).
    repeat split. repeat constructor.
  - repeat constructor.
  - exists [Remote.listGroups group (inr gs); Remote.createGroup group (inr ())],
      (Remote.setRetention group d (inl e)).
    repeat split. repeat constructor.
  - repeat constructor.
Qed.

Lemma resolution_outcome days group stream w tr w' r :
  resolution days group stream w tr w' r ->
  match r with
  | Val token =>
      exists pre LogStream0,
        tr = pre ++ [Remote.listStreams group stream (inr [LogStream0])]
        /\ token = UploadSequenceToken LogStream0
        /\ Forall (fun c => failure c = None) pre
  | Raise e =>
      exists pre c,
        tr = pre ++ [c]
        /\ Forall (fun c => failure c = None) pre
        /\ (failure c = Some e
            \/ exists streams,
                 c = Remote.listStreams group stream (inr streams)
                 /\ (1 < length streams)%nat
                 /\ e = errors_New (tooManyStreams (length streams) group stream))
  | Spin => Forall (fun c => failure c = None) tr
  end.
Proof.
  induction 1.
  - constructor.
  - apply group_phase_outcome in H as (pre & c & -> & Hc & Hpre).
    exists pre, c. auto.
  - apply group_phase_outcome in H. simpl in H.
    exists tr, (Remote.listStreams group stream (inl e)). auto.
  - apply group_phase_outcome in H. simpl in H.
    exists tr, (Remote.listStreams group stream (inr streams)).
    repeat split; [done|]. right. by exists streams.
  - apply group_phase_outcome in H. simpl in H. by exists tr, LogStream0.
  - apply group_phase_outcome in H. simpl in H.
    exists (tr ++ [Remote.listStreams group stream (inr [])]),
      (Remote.createStream group stream (inl e)).
    repeat split.
    + by rewrite <- app_assoc.
    + apply Forall_app. split; [done|]. repeat constructor.
    + by left.
  - apply group_phase_outcome in H. simpl in H.
    assert (Hhead : Forall (fun c => failure c = None)
              (tr ++ [Remote.listStreams group stream (inr []);
                      Remote.createStream group stream (inr ())])).
    { apply Forall_app. split; [done|]. repeat constructor. }
    destruct r as [token|e|].
    + destruct IHresolution as (pre & LogStream0 & -> & -> & Hpre).
      exists ((tr ++ [Remote.listStreams group stream (inr []);
                      Remote.createStream group stream (inr ())]) ++ pre),
        LogStream0.
      repeat split.
      * by rewrite <- !app_assoc.
      * by apply Forall_app.
    + destruct IHresolution as (pre & c & -> & Hpre & Hc).
      exists ((tr ++ [Remote.listStreams group stream (inr []);
                      Remote.createStream group stream (inr ())]) ++ pre), c.
      repeat split; [by rewrite <- !app_assoc | by apply Forall_app | done].
    + rewrite app_assoc. by apply Forall_app.
Qed.

Lemma group_phase_creations days group w tr w' r :
  group_phase days group w tr w' r ->
  count is_createGroup tr = count group_missing tr
  /\ count is_setRetention tr
     = match days !! group with
       | Some _ => count group_created tr
       | None => 0%nat
       end
  /\ Forall (fun c => forall g d out,
               c = Remote.setRetention g d out -> days !! group = Some d) tr.
Proof.
  inversion 1; subst; simpl;
    repeat match goal with
    | Hm : matchGroup _ _ = _ |- _ => rewrite Hm; clear Hm
    | Hd : days !! _ = _ |- _ => rewrite Hd
    end; simpl;
    (split; [done|split; [by destruct (days !! group)|]]);
    repeat constructor; intros; simplify_eq; done.
Qed.

Lemma resolution_group_creations days group stream w tr w' r :
  resolution days group stream w tr w' r ->
  count is_createGroup tr = count group_missing tr
  /\ count is_setRetention tr
     = match days !! group with
       | Some _ => count group_created tr
       | None => 0%nat
       end
  /\ Forall (fun c => forall g d out,
               c = Remote.setRetention g d out -> days !! group = Some d) tr.
Proof.
  induction 1;
    try match goal with
        | Hgp : group_phase _ _ _ _ _ _ |- _ =>
            apply group_phase_creations in Hgp as (G1 & G2 & G3)
        end;
    try destruct IHresolution as (I1 & I2 & I3);
    rewrite ?count_app, ?Forall_app; simpl;
    rewrite ?G1, ?G2, ?I1, ?I2;
    destruct (days !! group);
    repeat split; try lia; try done;
    repeat constructor; intros; simplify_eq.
Qed.

(** [getSequenceToken] talks to the service and does nothing else: the
    token cache and the adapter's caches are what they were, whatever the
    service replies and however the run ends. *)
Theorem getSequenceToken_leaves_caches fuel msg u :
  tokens (getSequenceToken fuel msg u).1.1 = tokens u
  /\ adapter (getSequenceToken fuel msg u).1.1 = adapter u.
Proof.
  destruct (getSequenceToken fuel msg u) as [[u' tr] r] eqn:Hg.
  apply getSequenceToken_resolution in Hg as [_ ->]. done.
Qed.

(** When [getSequenceToken] returns a token, its last call is a stream
    listing that came back with exactly one stream, the token is the one
    recorded for that stream ([nil] for a stream nothing was appended to),
    and no call before it failed. *)
Theorem getSequenceToken_returns_listed_token fuel msg u u' tr token :
  getSequenceToken fuel msg u = (u', tr, Val token) ->
  exists pre LogStream0,
    tr = pre ++ [Remote.listStreams (Group msg) (Stream msg) (inr [LogStream0])]
    /\ token = UploadSequenceToken LogStream0
    /\ Forall (fun c => failure c = None) pre.
Proof.
  intros Hg. apply getSequenceToken_resolution in Hg as [Hres _].
  by apply resolution_outcome in Hres.
Qed.

(** When [getSequenceToken] returns an error, the call it made last is the
    first one that went wrong: either that call failed and its error is
    returned as it came, or it is a stream listing with more than one
    stream and the error is the one made with [errors.New]. *)
Theorem getSequenceToken_stops_at_first_failure fuel msg u u' tr e :
  getSequenceToken fuel msg u = (u', tr, Raise e) ->
  exists pre c,
    tr = pre ++ [c]
    /\ Forall (fun c => failure c = None) pre
    /\ (failure c = Some e
        \/ exists streams,
             c = Remote.listStreams (Group msg) (Stream msg) (inr streams)
             /\ (1 < length streams)%nat
             /\ e = errors_New (tooManyStreams (length streams)
                                  (Group msg) (Stream msg))).
Proof.
  intros Hg. apply getSequenceToken_resolution in Hg as [Hres _].
  by apply resolution_outcome in Hres.
Qed.

(** In every run of [getSequenceToken] the group is created once for each
    group listing that came back without it, and never otherwise; the
    retention is set once for each creation that succeeded when a retention
    is configured for the group, with the configured number of days, and
    never when none is configured. *)
Theorem retention_follows_group_creation fuel msg u :
  let tr := (getSequenceToken fuel msg u).1.2 in
  count is_createGroup tr = count group_missing tr
  /\ count is_setRetention tr
     = match retentiondays (adapter u) !! Group msg with
       | Some _ => count group_created tr
       | None => 0%nat
       end
  /\ Forall (fun c => forall g d out,
               c = Remote.setRetention g d out ->
               retentiondays (adapter u) !! Group msg = Some d) tr.
Proof.
  destruct (getSequenceToken fuel msg u) as [[u' tr] r] eqn:Hg.
  apply getSequenceToken_resolution in Hg as [Hres _].
  by apply resolution_group_creations in Hres.
Qed.

(** A destination that exists is resolved with two calls, both of them
    listings: nothing is created and no retention is set. *)
Theorem existing_destination_is_only_listed fuel msg u w1 LogGroups w2 LogStream0 :
  DescribeLogGroups (Group msg) (svc u) = (w1, inr LogGroups) ->
  matchGroup (Group msg) LogGroups = true ->
  DescribeLogStreams (Group msg) (Stream msg) w1 = (w2, inr [LogStream0]) ->
  getSequenceToken (S fuel) msg u
  = (with_svc u w2,
     [Remote.listGroups (Group msg) (inr LogGroups);
      Remote.listStreams (Group msg) (Stream msg) (inr [LogStream0])],
     Val (UploadSequenceToken LogStream0)).
Proof.
  intros Hlg Hm Hls. simpl getSequenceToken. run_body.
  rewrite Hlg. simpl. rewrite Hm. simpl. by rewrite Hls.
Qed.

(** ** More about one turn of the loop of [Start] *)

(** Every remote call made for a batch is about the group and the stream of
    the first message of the batch: the listings, the creations, the
    retention and the append, whatever groups and streams the other
    messages of the batch name. *)
Theorem deliver_targets_first_message fuel batch u u' tr v msg rest :
  deliver fuel batch u = (u', tr, v) ->
  Msgs batch = msg :: rest ->
  Forall (targets (Group msg) (Stream msg)) tr.
Proof.
  intros Hd HM.
  apply deliver_inv in Hd
    as [(HM' & _) | (msg' & rest' & u1 & t1 & r & HM' & Hf & Hr)];
    [congruence|].
  assert (msg' = msg) as -> by congruence.
  assert (Ht1 : Forall (targets (Group msg) (Stream msg)) t1).
  { apply fetchToken_inv in Hf
      as [(tok & _ & _ & -> & _) | (_ & u0 & Hg & _)]; [constructor|].
    apply getSequenceToken_resolution in Hg as [Hres _].
    by eapply resolution_targets. }
  destruct r as [token|err|]; [|by destruct Hr as (_ & -> & _)..].
  destruct Hr as (w & out & _ & -> & _).
  apply Forall_app. split; [done|]. by repeat constructor.
Qed.

(** A turn that submits the batch makes exactly one append, as its last
    call, after calls that all succeeded; the verdict is what the append
    came back with.  Afterwards the cache holds, for the container of the
    first message, the next token if the append returned one and otherwise
    the token that was submitted (none if none was). *)
Theorem deliver_appends_once_and_last fuel batch u u' tr v :
  deliver fuel batch u = (u', tr, Val v) ->
  submitted v = true ->
  exists msg pre params out,
    head (Msgs batch) = Some msg
    /\ tr = pre ++ [Remote.appendEvents params out]
    /\ count is_append pre = 0%nat
    /\ Forall (fun c => failure c = None) pre
    /\ v = match out with inl err => PutError err | inr resp => Posted resp end
    /\ tokens u' !! Container msg
       = match out with
         | inr (Some NextSequenceToken) => Some NextSequenceToken
         | _ => SequenceToken params
         end.
Proof.
  intros Hd Hv.
  apply deliver_inv in Hd
    as [(_ & _ & _ & ?) | (msg & rest & u1 & t1 & r & HM & Hf & Hr)];
    [by simplify_eq|].
  destruct r as [token|err|]; [|destruct Hr as (_ & _ & ?); by simplify_eq..].
  destruct Hr as (w & out & Hput & -> & Hout).
  exists msg, t1, (putParams batch msg token), out. rewrite HM. simpl.
  assert (Hpre : count is_append t1 = 0%nat
                 /\ Forall (fun c => failure c = None) t1
                 /\ tokens u1 !! Container msg = token).
  { apply fetchToken_inv in Hf
      as [(tok & Htok & -> & -> & Hr) | (Hnone & u0 & Hg & ->)].
    - by simplify_eq.
    - pose proof Hg as Hg'.
      apply getSequenceToken_resolution in Hg' as [Hres Hu0].
      split; [by eapply resolution_no_append|]. split.
      + apply resolution_outcome in Hres as (pre & s0 & -> & _ & Hpre).
        apply Forall_app. split; [done|]. by repeat constructor.
      + destruct token as [awsToken|]; simpl.
        * apply lookup_insert_eq.
        * by rewrite Hu0. }
  destruct Hpre as (Hc & Hok & Htok).
  repeat split; try done.
  - destruct out as [err|resp]; destruct Hout as [_ Hv']; by simplify_eq.
  - destruct out as [err|[next|]]; destruct Hout as [-> _]; simpl; try done.
    apply lookup_insert_eq.
Qed.

(** A turn that does not submit the batch (the batch is empty, or the
    token could not be resolved) makes no append and leaves the token cache
    as it was; for an empty batch it makes no remote call at all. *)
Theorem deliver_without_append_keeps_cache fuel batch u u' tr v :
  deliver fuel batch u = (u', tr, Val v) ->
  submitted v = false ->
  count is_append tr = 0%nat
  /\ tokens u' = tokens u
  /\ (Msgs batch = [] -> v = EmptyBatch /\ tr = [] /\ u' = u)
  /\ (v = EmptyBatch -> Msgs batch = []).
Proof.
  intros Hd Hv.
  apply deliver_inv in Hd
    as [(HM & -> & -> & Hv') | (msg & rest & u1 & t1 & r & HM & Hf & Hr)].
  { by simplify_eq. }
  destruct r as [token|err|].
  - destruct Hr as (w & [err|resp] & _ & _ & _ & Hv'); by simplify_eq.
  - destruct Hr as (-> & -> & Hv'). simplify_eq.
    apply fetchToken_inv in Hf
      as [(tok & _ & _ & _ & ?) | (_ & u0 & Hg & ->)]; [done|].
    apply getSequenceToken_resolution in Hg as [Hres Hu0].
    repeat split; try done; try congruence.
    + by eapply resolution_no_append.
    + by rewrite Hu0.
  - by destruct Hr as (_ & _ & ?).
Qed.

(** The cache is a round trip under the container: after an append that
    returned a next token, a batch whose first message comes from the same
    container is submitted with that token by a single call, the append,
    whatever its group and stream. *)
Theorem next_token_is_reused fuel fuel' batch batch' u u1 tr next msg msg' rest' :
  deliver fuel batch u = (u1, tr, Val (Posted (Some next))) ->
  head (Msgs batch) = Some msg ->
  Msgs batch' = msg' :: rest' ->
  Container msg' = Container msg ->
  (deliver fuel' batch' u1).1.2
  = [Remote.appendEvents (putParams batch' msg' (Some next))
       (PutLogEvents (putParams batch' msg' (Some next)) (svc u1)).2].
Proof.
  intros Hd Hhd HM' Hc.
  assert (Htok : tokens u1 !! Container msg' = Some next).
  { rewrite Hc.
    apply deliver_inv in Hd
      as [(_ & _ & _ & ?) | (msg0 & rest & u0 & t0 & r & HM & _ & Hr)]; [done|].
    rewrite HM in Hhd. simpl in Hhd. simplify_eq.
    destruct r as [token|err|]; [|by destruct Hr as (_ & _ & ?)..].
    destruct Hr as (w & [err|[n|]] & _ & _ & -> & Hv); simplify_eq.
    apply lookup_insert_eq. }
  rewrite (deliver_cached fuel' batch' msg' rest' u1 next HM' Htok). simpl.
  by destruct (PutLogEvents _ (svc u1)) as [w out].
Qed.

(** A refused append does not touch the token it was given: when a batch
    was submitted with a cached token and the append failed, the next batch
    that starts with a message of the same container is submitted with the
    very same token, again without any listing. *)
Theorem refused_token_is_submitted_again
    fuel fuel' batch batch' u u1 tr err msg rest cachedToken msg' rest' :
  Msgs batch = msg :: rest ->
  tokens u !! Container msg = Some cachedToken ->
  deliver fuel batch u = (u1, tr, Val (PutError err)) ->
  Msgs batch' = msg' :: rest' ->
  Container msg' = Container msg ->
  tr = [Remote.appendEvents (putParams batch msg (Some cachedToken)) (inl err)]
  /\ (deliver fuel' batch' u1).1.2
     = [Remote.appendEvents (putParams batch' msg' (Some cachedToken))
          (PutLogEvents (putParams batch' msg' (Some cachedToken)) (svc u1)).2].
Proof.
  intros HM Htok Hd HM' Hc.
  rewrite (deliver_cached fuel batch msg rest u cachedToken HM Htok) in Hd.
  simpl in Hd.
  destruct (PutLogEvents _ (svc u)) as [w [err'|[next|]]] eqn:Hput;
    simplify_eq.
  split; [done|].
  assert (Htok' : tokens (with_svc u w) !! Container msg' = Some cachedToken).
  { by rewrite Hc. }
  rewrite (deliver_cached fuel' batch' msg' rest' _ cachedToken HM' Htok').
  simpl. by destruct (PutLogEvents _ w) as [w' out].
Qed.

(** ** More about the loop of [Start] *)


Lemma deliver_keeps_keys fuel batch u k :
  is_Some (tokens u !! k) ->
  is_Some (tokens (deliver fuel batch u).1.1 !! k)
  /\ adapter (deliver fuel batch u).1.1 = adapter u.
Proof.
  intros Hk.
  destruct (deliver fuel batch u) as [[u' tr] v] eqn:Hd. simpl.
  apply deliver_inv in Hd
    as [(_ & -> & _) | (msg & rest & u1 & t1 & r & _ & Hf & Hr)]; [done|].
  assert (H1 : is_Some (tokens u1 !! k) /\ adapter u1 = adapter u).
  { apply fetchToken_inv in Hf
      as [(tok & _ & -> & _) | (_ & u0 & Hg & ->)]; [done|].
    apply getSequenceToken_resolution in Hg as [_ Hu0].
    destruct r as [[awsToken|]| |]; simpl; rewrite Hu0; simpl;
      (split; [|done]); try done.
    destruct (decide (Container msg = k)) as [->|Hne].
    - rewrite lookup_insert_eq. by eexists.
    - by rewrite lookup_insert_ne. }
  destruct H1 as [H1 H2].
  destruct r as [token|err|]; [|by destruct Hr as (-> & _)..].
  destruct Hr as (w & [err|[next|]] & _ & _ & -> & _); simpl;
    (split; [|done]); try done.
  destruct (decide (Container msg = k)) as [->|Hne].
  - rewrite lookup_insert_eq. by eexists.
  - by rewrite lookup_insert_ne.
Qed.

Lemma Start_cons fuel batch rest u :
  Start fuel (batch :: rest) u
  = match deliver fuel batch u with
    | (u1, t1, Val v) =>
        let '(u2, t2, r) := Start fuel rest u1 in
        (u2, t1 ++ t2,
         match r with
         | Val vs => Val (v :: vs)
         | Raise e => Raise e
         | Spin => Spin
         end)
    | other => (other.1, match other.2 with
                         | Val _ => Spin
                         | Raise e => Raise e
                         | Spin => Spin
                         end)
    end.
Proof.
  simpl. unfold bind.
  destruct (deliver fuel batch u) as [[u1 t1] [v|e|]]; [|done|done].
  destruct (Start fuel rest u1) as [[u2 t2] [vs|e|]]; simpl; try done.
  by rewrite app_nil_r.
Qed.


(** The cache never forgets: a container that has a token before [Start]
    goes through its input still has one afterwards, however the run
    ends. *)
Theorem Start_keeps_cached_containers fuel Input u k :
  is_Some (tokens u !! k) ->
  is_Some (tokens (Start fuel Input u).1.1 !! k).
Proof.
  revert u. induction Input as [|batch rest IH]; intros u Hk; [done|].
  rewrite Start_cons.
  destruct (deliver_keeps_keys fuel batch u k Hk) as [Hk1 _].
  destruct (deliver fuel batch u) as [[u1 t1] [v|e|]]; simpl in *; try done.
  specialize (IH u1 Hk1).
  by destruct (Start fuel rest u1) as [[u2 t2] r2].
Qed.

(** Empty batches count for nothing: without them, [Start] leaves the same
    state and makes the same calls. *)
Theorem Start_skips_empty_batches fuel Input u :
  (Start fuel Input u).1
  = (Start fuel
       (List.filter (fun batch => negb (Nat.eqb (length (Msgs batch)) 0)) Input)
       u).1.
Proof.
  revert u. induction Input as [|batch rest IH]; intros u; [done|].
  simpl List.filter.
  destruct (Msgs batch) as [|msg msgs] eqn:HM; simpl negb; cbv iota.
  - rewrite Start_cons. unfold deliver. rewrite HM. simpl.
    rewrite <- IH. by destruct (Start fuel rest u) as [[u2 t2] r2].
  - rewrite !Start_cons.
    destruct (deliver fuel batch u) as [[u1 t1] [v|e|]]; try done.
    specialize (IH u1).
    destruct (Start fuel rest u1) as [[u2 t2] r2].
    destruct (Start fuel (List.filter _ rest) u1) as [[u3 t3] r3].
    simpl in *. by simplify_eq.
Qed.

(** ** A new uploader *)

Lemma bind_head {A B} (c : M W A) (k : A -> M W B) u x :
  (exists tl, (c u).1.2 = x :: tl) -> exists tl, (bind c k u).1.2 = x :: tl.
Proof.
  unfold bind. destruct (c u) as [[u1 t1] [a|e|]]; simpl; intros [tl ->]; eauto.
  destruct (k a u1) as [[u2 t2] r]; simpl; eauto.
Qed.

Lemma getSequenceToken_starts_with_group_listing fuel msg u :
  exists tl,
    (getSequenceToken (S fuel) msg u).1.2
    = Remote.listGroups (Group msg) (DescribeLogGroups (Group msg) (svc u)).2 :: tl.
Proof.
  rewrite getSequenceToken_S. unfold ensureGroup, groupExists.
  do 3 apply bind_head. unfold rpc.
  destruct (DescribeLogGroups (Group msg) (svc u)) as [w out]. simpl. eauto.
Qed.

(** The client of a new uploader is made for the route's address, unless
    the address is empty or "auto" and the EC2 region is known, in which
    case it is made for the EC2 region (with neither, it is made for the
    address as it is, and the error line is printed).  The token cache of a
    new uploader is empty, so that its first turn on a batch with a message
    starts with the listing of the groups under the first message's group,
    asked of that client. *)
Theorem new_uploader_lists_group_first
    (Getenv : string -> string) (New : string -> W) route a fuel batch msg rest :
  Msgs batch = msg :: rest ->
  let u := (NewCloudwatchUploader Getenv New route a).1.1 in
  let lines := (NewCloudwatchUploader Getenv New route a).2 in
  let unset := String.eqb (Address route) "auto" || String.eqb (Address route) "" in
  let region := if unset && negb (String.eqb (Ec2Region a) "")
                then Ec2Region a else Address route in
  svc u = New region
  /\ adapter u = a
  /\ tokens u = ∅
  /\ ("cloudwatch: ERROR - could not get region from EC2" ∈ lines
      <-> unset = true /\ Ec2Region a = "")
  /\ exists tl,
       (deliver (S fuel) batch u).1.2
       = Remote.listGroups (Group msg)
           (DescribeLogGroups (Group msg) (New region)).2 :: tl.
Proof.
  intros HM u lines unset region.
  assert (Hu : u = {| adapter := a; svc := New region; tokens := ∅ |}
               /\ ("cloudwatch: ERROR - could not get region from EC2" ∈ lines
                   <-> unset = true /\ Ec2Region a = "")).
  { subst u lines region unset. unfold NewCloudwatchUploader, pickRegion.
    destruct (String.eqb (Address route) "auto" || String.eqb (Address route) "");
      simpl; [destruct (String.eqb_spec (Ec2Region a) "") as [He|He]; simpl|];
      (split; [done|]).
    - split; [done|]. intros _. apply elem_of_cons. by left.
    - split; [|by intros [_ ?]]. intros Hin.
      destruct (pickDebug Getenv route); inversion Hin; subst;
        match goal with H : _ ∈ [] |- _ => inversion H end.
    - split; [|by intros [? _]]. intros Hin.
      destruct (pickDebug Getenv route); inversion Hin; subst;
        match goal with H : _ ∈ [] |- _ => inversion H end. }
  destruct Hu as [Hu Hlines]. rewrite Hu.
  split; [done|]. split; [done|]. split; [done|]. split; [exact Hlines|].
  destruct (getSequenceToken_starts_with_group_listing fuel msg
              {| adapter := a; svc := New region; tokens := ∅ |}) as [tl Htl].
  unfold deliver, fetchToken. rewrite HM. simpl tokens. rewrite lookup_empty.
  destruct (getSequenceToken (S fuel) msg _) as [[u1 t1] [[tok|]|e|]];
    simpl in Htl; subst t1; simpl;
    try destruct (PutLogEvents _ _) as [w [err|resp]]; simpl; eauto.
Qed.

(** ** Debug lines *)

Lemma HasSuffix_eq (s suffix : string) :
  HasSuffix s suffix
  = (String.eqb s suffix
     || match s with
        | EmptyString => false
        | String _ rest => HasSuffix rest suffix
        end).
Proof. by destruct s. Qed.

Lemma HasSuffix_append (p suffix : string) : HasSuffix (p +:+ suffix) suffix = true.
Proof.
  induction p as [|c p IH].
  - rewrite HasSuffix_eq. change ("" +:+ suffix) with suffix.
    by rewrite String.eqb_refl.
  - rewrite HasSuffix_eq.
    change (String c p +:+ suffix) with (String c (p +:+ suffix)).
    cbv iota. rewrite IH. apply orb_true_r.
Qed.

Lemma HasSuffix_spec (s suffix : string) :
  HasSuffix s suffix = true <-> exists p, s = p +:+ suffix.
Proof.
  split.
  - induction s as [|c s IH]; rewrite HasSuffix_eq.
    + rewrite orb_false_r. intros ->%String.eqb_eq. by exists "".
    + intros [->%String.eqb_eq | Hs]%orb_true_iff; [by exists ""|].
      destruct (IH Hs) as [p ->]. by exists (String c p).
  - intros [p ->]. apply HasSuffix_append.
Qed.

Lemma append_nil_r_string (a : string) : a +:+ "" = a.
Proof.
  induction a as [|x a IH]; [done|].
  change (String x (a +:+ "") = String x a). by rewrite IH.
Qed.

Lemma append_assoc_string (a b c : string) : (a +:+ b) +:+ c = a +:+ (b +:+ c).
Proof.
  induction a as [|x a IH]; [done|].
  change (String x ((a +:+ b) +:+ c) = String x (a +:+ (b +:+ c))).
  by rewrite IH.
Qed.

(** Without the debug flag nothing is printed.  With it, the line printed
    is the text after "cloudwatch: ", ends with a newline, and gets a
    newline added only when the text does not end with one already. *)
Theorem log_lines_end_with_one_newline (formatted : string) :
  log false formatted = None
  /\ exists line,
       log true formatted = Some line
       /\ line = "cloudwatch: " +:+ formatted
                 +:+ (if HasSuffix formatted newline then "" else newline)
       /\ HasSuffix line newline = true.
Proof.
  split; [done|].
  assert (Hsame : HasSuffix ("cloudwatch: " +:+ formatted) newline
                  = HasSuffix formatted newline) by reflexivity.
  unfold log. rewrite Hsame.
  destruct (HasSuffix formatted newline) eqn:Hf; simpl negb; cbv iota;
    eexists; (split; [reflexivity|]); split.
  - by rewrite append_nil_r_string.
  - by rewrite Hsame.
  - by rewrite append_assoc_string.
  - apply HasSuffix_append.
Qed.

End UploaderFacts.

(** ** The adapter: a container that cannot be inspected *)

Section AdapterFacts.
Context {D E : Type}.
Context (InspectContainer : string -> D -> D * (error + DockerContainer)).
Context (Now : D -> D * Z).
Context (parseEnv : list string -> E).
Context (renderEnvValue :
           CloudwatchAdapter -> string -> RenderContext E -> string -> string).
Context (ParseInt : string -> error + Z).

Local Abbreviation body :=
  (Stream_body InspectContainer Now parseEnv renderEnvValue ParseInt).
Local Abbreviation loop :=
  (Stream_loop InspectContainer Now parseEnv renderEnvValue ParseInt).

(** C10. For a message whose container has no cached group name or no
    cached stream name, if the inspection of the container fails, the
    message is not handed to the batcher and the adapter's caches (group
    names, stream names, retention days) are exactly what they were; the
    loop goes on with the next message.  So the messages that reach the
    batcher are those of the rest of the stream: this one is lost before
    batching. *)
Theorem inspect_failure_discards_message m a d d1 err rest :
  groupnames a !! ID (Container_ m) = None
  \/ streamnames a !! ID (Container_ m) = None ->
  InspectContainer (ID (Container_ m)) d = (d1, inl err) ->
  body m a d = (a, d1, inl err)
  /\ (loop (m :: rest) a d).1.1 = (loop rest a d1).1.1
  /\ (loop (m :: rest) a d).2 = inl err :: (loop rest a d1).2
  /\ batcherInput (loop (m :: rest) a d).2
     = batcherInput (loop rest a d1).2.
Proof.
  intros Hmiss Hinspect.
  assert (Hbody : body m a d = (a, d1, inl err)).
  { unfold Stream_body.
    assert (Hcond : String.eqb (default "" (streamnames a !! ID (Container_ m))) ""
                    || String.eqb (default "" (groupnames a !! ID (Container_ m))) ""
                    = true).
    { destruct Hmiss as [-> | ->]; simpl; [apply orb_true_r | done]. }
    rewrite Hcond. by rewrite Hinspect. }
  split; [done|].
  simpl. rewrite Hbody.
  by destruct (loop rest a d1) as [[a2 d2] outs].
Qed.

(** ** More about the adapter loop *)

Lemma unnamed_inspects a id :
  unnamed a id ->
  String.eqb (default "" (streamnames a !! id)) ""
  || String.eqb (default "" (groupnames a !! id)) "" = true.
Proof.
  intros [H|H]; rewrite H; simpl; [done|apply orb_true_r].
Qed.

Lemma named_forwards a id g s :
  groupnames a !! id = Some g -> streamnames a !! id = Some s ->
  g <> "" -> s <> "" ->
  String.eqb (default "" (streamnames a !! id)) ""
  || String.eqb (default "" (groupnames a !! id)) "" = false.
Proof.
  intros -> -> Hg Hs. simpl.
  by destruct (String.eqb_spec s ""), (String.eqb_spec g "").
Qed.

Lemma body_named m a d g s :
  groupnames a !! ID (Container_ m) = Some g ->
  streamnames a !! ID (Container_ m) = Some s ->
  g <> "" -> s <> "" ->
  body m a d = (a, (Now d).1, inr (tagged m g s (Now d).2)).
Proof.
  intros Hg Hs Hgne Hsne. unfold Stream_body.
  rewrite (named_forwards a _ g s Hg Hs Hgne Hsne), Hg, Hs. simpl.
  unfold forward. by destruct (Now d).
Qed.

Lemma body_inspected m a d d1 containerData :
  unnamed a (ID (Container_ m)) ->
  InspectContainer (ID (Container_ m)) d = (d1, inr containerData) ->
  let context := renderContext parseEnv a m containerData in
  let g := renderEnvValue a "LOGSPOUT_GROUP" context (OsHost a) in
  let s := renderEnvValue a "LOGSPOUT_STREAM" context (ctx_Name context) in
  let a1 := cache_names (ID (Container_ m)) g s a in
  let r := renderEnvValue a1 "LOGSPOUT_CLOUDWATCH_RETENTION_DAYS" context "" in
  body m a d
  = (if negb (String.eqb r "") then
       match ParseInt r with
       | inr retentionDaysInt => cache_retention g retentionDaysInt a1
       | inl _ => a1
       end
     else a1,
     (Now d1).1, inr (tagged m g s (Now d1).2)).
Proof.
  intros Hun Hinspect context g s a1 r. unfold Stream_body.
  rewrite (unnamed_inspects a _ Hun), Hinspect.
  fold (renderContext parseEnv a m containerData). fold context.
  fold g. fold s. fold a1. fold r.
  unfold forward. by destruct (Now d1).
Qed.

(** After a successful inspection the message goes to the batcher under the
    rendered names (the host name being the default group and the
    container's name without its leading slash the default stream), and the
    names are cached for the container.  When both are non-empty, every
    later message of that container goes to the batcher under the same
    names with the caches untouched and only the clock consulted: the
    container is not inspected again. *)
Theorem names_are_rendered_once m a d d1 containerData :
  unnamed a (ID (Container_ m)) ->
  InspectContainer (ID (Container_ m)) d = (d1, inr containerData) ->
  let context := renderContext parseEnv a m containerData in
  let g := renderEnvValue a "LOGSPOUT_GROUP" context (OsHost a) in
  let s := renderEnvValue a "LOGSPOUT_STREAM" context
             (TrimPrefixSlash (Name (Container_ m))) in
  exists a2,
    body m a d = (a2, (Now d1).1, inr (tagged m g s (Now d1).2))
    /\ groupnames a2 !! ID (Container_ m) = Some g
    /\ streamnames a2 !! ID (Container_ m) = Some s
    /\ (g <> "" -> s <> "" ->
        forall m' d',
          ID (Container_ m') = ID (Container_ m) ->
          body m' a2 d' = (a2, (Now d').1, inr (tagged m' g s (Now d').2))).
Proof.
  intros Hun Hinspect context g s.
  rewrite (body_inspected m a d d1 containerData Hun Hinspect).
  fold context. fold g. change (ctx_Name context) with (TrimPrefixSlash (Name (Container_ m))).
  fold s. eexists. split; [reflexivity|].
  assert (Hnames : forall a2,
            a2 = (if negb (String.eqb
                     (renderEnvValue (cache_names (ID (Container_ m)) g s a)
                        "LOGSPOUT_CLOUDWATCH_RETENTION_DAYS" context "") "")
                  then
                    match ParseInt
                            (renderEnvValue (cache_names (ID (Container_ m)) g s a)
                               "LOGSPOUT_CLOUDWATCH_RETENTION_DAYS" context "")
                    with
                    | inr retentionDaysInt =>
                        cache_retention g retentionDaysInt
                          (cache_names (ID (Container_ m)) g s a)
                    | inl _ => cache_names (ID (Container_ m)) g s a
                    end
                  else cache_names (ID (Container_ m)) g s a) ->
            groupnames a2 !! ID (Container_ m) = Some g
            /\ streamnames a2 !! ID (Container_ m) = Some s).
  { intros a2 ->.
    destruct (negb _); [destruct (ParseInt _)|]; simpl;
      by rewrite !lookup_insert_eq. }
  destruct (Hnames _ eq_refl) as [Hg Hs].
  split; [done|]. split; [done|].
  intros Hgne Hsne m' d' Hid. apply body_named; by rewrite ?Hid.
Qed.

(** When the group name or the stream name is rendered empty, caching it
    settles nothing: the next message of the container is inspected again
    and, if that inspection fails, it is dropped although an earlier
    message of the same container went through. *)
Theorem empty_names_are_rendered_again m a d d1 containerData m' d' d1' err :
  unnamed a (ID (Container_ m)) ->
  InspectContainer (ID (Container_ m)) d = (d1, inr containerData) ->
  let context := renderContext parseEnv a m containerData in
  renderEnvValue a "LOGSPOUT_GROUP" context (OsHost a) = ""
  \/ renderEnvValue a "LOGSPOUT_STREAM" context
       (TrimPrefixSlash (Name (Container_ m))) = "" ->
  ID (Container_ m') = ID (Container_ m) ->
  InspectContainer (ID (Container_ m)) d' = (d1', inl err) ->
  (exists msg, (body m a d).2 = inr msg)
  /\ body m' (body m a d).1.1 d' = ((body m a d).1.1, d1', inl err).
Proof.
  intros Hun Hinspect context Hempty Hid Hinspect'.
  rewrite (body_inspected m a d d1 containerData Hun Hinspect).
  fold context. simpl. split; [by eexists|].
  set (g := renderEnvValue a "LOGSPOUT_GROUP" context (OsHost a)) in *.
  set (s := renderEnvValue a "LOGSPOUT_STREAM" context (ctx_Name context)) in *.
  change (TrimPrefixSlash (Name (Container_ m))) with (ctx_Name context) in Hempty.
  fold s in Hempty.
  match goal with |- body m' ?x d' = _ => set (a2 := x) end.
  assert (Hun2 : unnamed a2 (ID (Container_ m'))).
  { rewrite Hid. unfold unnamed. subst a2.
    destruct (negb _); [destruct (ParseInt _)|]; simpl;
      rewrite !lookup_insert_eq; simpl; tauto. }
  unfold Stream_body. rewrite (unnamed_inspects a2 _ Hun2), Hid.
  by rewrite Hinspect'.
Qed.

(** What an inspection leaves in the retention cache: nothing new when the
    retention is rendered empty or does not parse as a number of days, and
    the parsed number under the rendered group name when it does.  In all
    three cases the message goes to the batcher. *)
Theorem retention_is_cached_when_it_parses m a d d1 containerData :
  unnamed a (ID (Container_ m)) ->
  InspectContainer (ID (Container_ m)) d = (d1, inr containerData) ->
  let context := renderContext parseEnv a m containerData in
  let g := renderEnvValue a "LOGSPOUT_GROUP" context (OsHost a) in
  let s := renderEnvValue a "LOGSPOUT_STREAM" context
             (TrimPrefixSlash (Name (Container_ m))) in
  let r := renderEnvValue (cache_names (ID (Container_ m)) g s a)
             "LOGSPOUT_CLOUDWATCH_RETENTION_DAYS" context "" in
  (body m a d).2 = inr (tagged m g s (Now d1).2)
  /\ retentiondays (body m a d).1.1
     = match ParseInt r with
       | inr retentionDaysInt =>
           if String.eqb r "" then retentiondays a
           else <[g := retentionDaysInt]> (retentiondays a)
       | inl _ => retentiondays a
       end.
Proof.
  intros Hun Hinspect context g s r.
  rewrite (body_inspected m a d d1 containerData Hun Hinspect).
  fold context. fold g.
  change (ctx_Name context) with (TrimPrefixSlash (Name (Container_ m))).
  fold s. fold r. simpl. split; [done|].
  destruct (String.eqb r ""); simpl; by destruct (ParseInt r).
Qed.

Lemma body_other_container m a d id :
  ID (Container_ m) <> id ->
  groupnames (body m a d).1.1 !! id = groupnames a !! id
  /\ streamnames (body m a d).1.1 !! id = streamnames a !! id.
Proof.
  intros Hne. unfold Stream_body.
  destruct (_ || _).
  - destruct (InspectContainer _ d) as [d1 [err|containerData]]; [done|].
    destruct (negb _); [destruct (ParseInt _)|];
      destruct (forward _ _ _ _ _) as [d2 out]; simpl;
      by rewrite !lookup_insert_ne.
  - by destruct (forward _ _ _ _ _).
Qed.

(** Names that are settled stay: once a container has a non-empty group
    name and a non-empty stream name in the caches, they are still there
    after any stream of messages, and every message of that container that
    reached the batcher carries them. *)
Theorem settled_names_stay logstream a d id g s :
  groupnames a !! id = Some g ->
  streamnames a !! id = Some s ->
  g <> "" -> s <> "" ->
  groupnames (loop logstream a d).1.1 !! id = Some g
  /\ streamnames (loop logstream a d).1.1 !! id = Some s
  /\ Forall (fun msg => Container msg = id -> Group msg = g /\ Stream msg = s)
       (batcherInput (loop logstream a d).2).
Proof.
  revert a d. induction logstream as [|m rest IH]; intros a d Hg Hs Hgne Hsne.
  { simpl. repeat split; try done; try constructor. }
  simpl.
  destruct (decide (ID (Container_ m) = id)) as [Hid|Hid].
  - subst id. rewrite (body_named m a d g s Hg Hs Hgne Hsne).
    destruct (IH a (Now d).1 Hg Hs Hgne Hsne) as (I1 & I2 & I3).
    destruct (loop rest a (Now d).1) as [[a2 d2] outs]. simpl in *.
    repeat split; try done. by constructor.
  - destruct (body_other_container m a d id Hid) as [B1 B2].
    assert (Hout : forall msg, (body m a d).2 = inr msg -> Container msg <> id).
    { unfold Stream_body. intros msg.
      destruct (_ || _).
      - destruct (InspectContainer _ d) as [d1 [err|containerData]]; [done|].
        unfold forward. destruct (Now d1). simpl. intros [= <-]. done.
      - unfold forward. destruct (Now d). simpl. intros [= <-]. done. }
    destruct (body m a d) as [[a1 d1] out]. simpl in *.
    rewrite <- B1 in Hg. rewrite <- B2 in Hs.
    destruct (IH a1 d1 Hg Hs Hgne Hsne) as (I1 & I2 & I3).
    destruct (loop rest a1 d1) as [[a2 d2] outs]. simpl in *.
    repeat split; try done.
    destruct out as [err|msg]; simpl; [done|].
    constructor; [|done]. intros Hc. by destruct (Hout msg eq_refl).
Qed.

(** The loop keeps the order of arrival: it gives one outcome for each
    message, in order, and a message that reaches the batcher carries the
    text and the container of the message it comes from.  The host name,
    the EC2 region and the EC2 instance of the adapter are never
    written. *)
Theorem loop_keeps_arrival_order logstream a d :
  Forall2 (fun m out =>
             match out with
             | inr msg => Message msg = Data m /\ Container msg = ID (Container_ m)
             | inl _ => True
             end) logstream (loop logstream a d).2
  /\ OsHost (loop logstream a d).1.1 = OsHost a
  /\ Ec2Region (loop logstream a d).1.1 = Ec2Region a
  /\ Ec2Instance (loop logstream a d).1.1 = Ec2Instance a.
Proof.
  revert a d. induction logstream as [|m rest IH]; intros a d.
  { simpl. repeat split; try done; try constructor. }
  simpl.
  assert (Hbody : match (body m a d).2 with
                  | inr msg => Message msg = Data m
                               /\ Container msg = ID (Container_ m)
                  | inl _ => True
                  end
                  /\ OsHost (body m a d).1.1 = OsHost a
                  /\ Ec2Region (body m a d).1.1 = Ec2Region a
                  /\ Ec2Instance (body m a d).1.1 = Ec2Instance a).
  { unfold Stream_body. destruct (_ || _).
    - destruct (InspectContainer _ d) as [d1 [err|containerData]]; [done|].
      unfold forward. destruct (Now d1).
      destruct (negb _); [destruct (ParseInt _)|]; done.
    - unfold forward. by destruct (Now d). }
  destruct (body m a d) as [[a1 d1] out]. simpl in Hbody.
  destruct Hbody as (H1 & H2 & H3 & H4).
  destruct (IH a1 d1) as (I1 & I2 & I3 & I4).
  destruct (loop rest a1 d1) as [[a2 d2] outs]. simpl in *.
  repeat split; try congruence. by constructor.
Qed.

(** A message that reaches the batcher carries the names that the caches
    hold for its container right after the turn. *)
Theorem forwarded_names_are_the_cached_ones m a d msg :
  (body m a d).2 = inr msg ->
  Group msg = default "" (groupnames (body m a d).1.1 !! ID (Container_ m))
  /\ Stream msg = default "" (streamnames (body m a d).1.1 !! ID (Container_ m)).
Proof.
  unfold Stream_body. destruct (_ || _).
  - destruct (InspectContainer _ d) as [d1 [err|containerData]]; [done|].
    unfold forward. destruct (Now d1).
    destruct (negb _); [destruct (ParseInt _)|]; simpl;
      intros [= <-]; simpl; by rewrite !lookup_insert_eq.
  - unfold forward. destruct (Now d). simpl. by intros [= <-].
Qed.

End AdapterFacts.

(** ** A new adapter *)

Section NewAdapterFacts.
Context {C D E : Type}.
Context (Getenv : string -> string).
Context (NewClient : string -> error + C).
Context (Hostname : error + string).
Context (NewEC2Info : Route -> error + EC2Info).
Context (InspectContainer : C -> string -> D -> D * (error + DockerContainer)).
Context (Now : D -> D * Z).
Context (parseEnv : list string -> E).
Context (renderEnvValue :
           CloudwatchAdapter -> string -> RenderContext E -> string -> string).
Context (ParseInt : string -> error + Z).

(** When [NewCloudwatchAdapter] succeeds, the Docker client was made for
    the value of DOCKER_HOST, or for the local socket when that is empty,
    the adapter carries the host name and the EC2 instance and region that
    were found, and its caches are empty: the first message of any
    container is inspected with that client, and dropped if the inspection
    fails. *)
Theorem new_adapter_inspects_every_container route client a :
  NewCloudwatchAdapter Getenv NewClient Hostname NewEC2Info route
  = inr (client, a) ->
  NewClient (if String.eqb (Getenv "DOCKER_HOST") ""
             then "unix:///var/run/docker.sock"
             else Getenv "DOCKER_HOST") = inr client
  /\ Hostname = inr (OsHost a)
  /\ (exists ec2info,
        NewEC2Info route = inr ec2info
        /\ Ec2Instance a = InstanceID ec2info
        /\ Ec2Region a = Region ec2info)
  /\ (forall id, unnamed a id)
  /\ forall m d d1 err,
       InspectContainer client (ID (Container_ m)) d = (d1, inl err) ->
       Stream_body (InspectContainer client) Now parseEnv renderEnvValue
         ParseInt m a d
       = (a, d1, inl err).
Proof.
  unfold NewCloudwatchAdapter, dockerHost. intros H.
  destruct (String.eqb (Getenv "DOCKER_HOST") "") eqn:Henv; simpl in H;
    destruct (NewClient _) as [err|client0] eqn:Hclient; try done;
    destruct Hostname as [err|hostname] eqn:Hhost; try done;
    destruct (NewEC2Info route) as [err|ec2info] eqn:Hec2; try done;
    injection H as <- <-; simpl;
    (split; [done|]); (split; [done|]); (split; [by exists ec2info|]);
    (split; [by left|]);
    intros m d d1 err Hinspect; unfold Stream_body; simpl;
    by rewrite !lookup_empty, Hinspect.
Qed.

End NewAdapterFacts.

(** * Runs against the scripted service *)

Abbreviation Scripted := (CloudwatchUploader (list Script.Reply)).

(** ** One token per container, not per stream *)

(** C1. Containers [c1] and [c2] log to the same stream (app, web-1).
    After one batch of each has been appended, the cache holds one token
    per container: T1 under [c1] and T2 under [c2], although the latest
    successful append to (app, web-1) returned T2.  The next batch that
    starts with a message of [c1] is then submitted, without any listing,
    with the token T1, which the stream no longer accepts. *)
Theorem tokens_cached_per_container :
  let run := Start 1 [batch_c1; batch_c2] (fresh noAdapter shared_script) in
  (Group from_c1, Stream from_c1) = (Group from_c2, Stream from_c2)
  /\ run.2 = Val [Posted (Some "T1"); Posted (Some "T2")]
  /\ lastAppend "app" "web-1" run.1.2 = Some (Some "T2")
  /\ tokens run.1.1 !! Container from_c1 = Some "T1"
  /\ tokens run.1.1 !! Container from_c2 = Some "T2"
  /\ deliver 1 batch_c1 run.1.1
     = (with_svc run.1.1 [],
        [Remote.appendEvents (putParams batch_c1 from_c1 (Some "T1"))
           (inl (LibError "InvalidSequenceTokenException"))],
        Val (PutError (LibError "InvalidSequenceTokenException"))).
Proof. vm_compute. repeat split. Qed.

(** C5. After the batch of [c1] has been appended to (app, web-1) and the
    returned token T1 cached, the next batch for that same destination,
    which comes from [c2], does not find the token: the group and the
    stream are listed again before the append. *)
Theorem next_batch_of_other_container_lists_again :
  let first := deliver 1 batch_c1 (fresh noAdapter shared_script) in
  let second := deliver 1 batch_c2 first.1.1 in
  (Group from_c1, Stream from_c1) = (Group from_c2, Stream from_c2)
  /\ first.2 = Val (Posted (Some "T1"))
  /\ tokens first.1.1 !! Container from_c1 = Some "T1"
  /\ tokens first.1.1 !! Container from_c2 = None
  /\ second.1.2
     = [Remote.listGroups "app" (inr [app_group]);
        Remote.listStreams "app" "web-1" (inr [web1_at "T1"]);
        Remote.appendEvents (putParams batch_c2 from_c2 (Some "T1"))
          (inr (Some "T2"))]
  /\ count is_list_or_create second.1.2 = 2%nat.
Proof. vm_compute. repeat split. Qed.

(** ** Retention *)

(** The retention call fails after the group was created: the batch is
    dropped, although the service would have accepted the rest of the
    delivery. *)
Lemma retention_failure_stops_delivery :
  let run := deliver 2 batch3
               (fresh (retaining "app" 2) refused_retention_script) in
  run.2 = Val (TokenError (LibError "InvalidParameterException"))
  /\ map op_of run.1.2 = [OpListGroups; OpCreateGroup; OpSetRetention]
  /\ count is_append run.1.2 = 0%nat
  /\ svc run.1.1 = [Script.Streams [web1]; Script.Next (Some "T1")].
Proof. vm_compute. repeat split. Qed.

Lemma retention_failure_drops_batch_witness :
  let u : Scripted := fresh (retaining "app" 2) refused_retention_script in
  let w3 := [Script.Streams [web1]; Script.Next (Some "T1")] in
  let calls := [Remote.listGroups "app" (inr []);
                Remote.createGroup "app" (inr tt);
                Remote.setRetention "app" 2
                  (inl (LibError "InvalidParameterException"))] in
  getSequenceToken 1 one u
  = (with_svc u w3, calls, Raise (LibError "InvalidParameterException"))
  /\ deliver 1 batch3 u
     = (with_svc u w3, calls,
        Val (TokenError (LibError "InvalidParameterException")))
  /\ count is_append calls = 0%nat
  /\ tokens (with_svc u w3) = tokens u.
Proof.
  apply (retention_failure_drops_batch 0 batch3 one (tail (Msgs batch3))
           (fresh (retaining "app" 2) refused_retention_script)
           (tail refused_retention_script) []
           (tail (tail refused_retention_script)) 2);
    reflexivity.
Defined.

(** ** The first delivery *)

(** With nothing there yet and a retention configured, the group is listed
    twice: the delivery makes eight calls, not the seven of the listing
    that has a single group listing. *)
Lemma first_delivery_lists_groups_twice :
  let run := deliver 2 batch3
               (fresh (retaining "app" 14) first_delivery_script) in
  run.2 = Val (Posted (Some "T1"))
  /\ map op_of run.1.2
     = [OpListGroups; OpCreateGroup; OpSetRetention; OpListStreams;
        OpCreateStream; OpListGroups; OpListStreams; OpAppendEvents]
  /\ map op_of run.1.2
     <> [OpListGroups; OpCreateGroup; OpSetRetention; OpListStreams;
         OpCreateStream; OpListStreams; OpAppendEvents]
  /\ svc run.1.1 = [].
Proof. vm_compute. repeat split. discriminate. Qed.

Lemma first_delivery_call_sequence_witness :
  let u : Scripted := fresh (retaining "app" 14) first_delivery_script in
  let u' := set_token "c1" "T1" (with_svc u []) in
  deliver 2 batch3 u
  = (u',
     [Remote.listGroups "app" (inr []);
      Remote.createGroup "app" (inr tt);
      Remote.setRetention "app" 14 (inr tt);
      Remote.listStreams "app" "web-1" (inr []);
      Remote.createStream "app" "web-1" (inr tt);
      Remote.listGroups "app" (inr [app_group]);
      Remote.listStreams "app" "web-1" (inr [web1]);
      Remote.appendEvents (putParams batch3 one None) (inr (Some "T1"))],
     Val (Posted (Some "T1")))
  /\ LogEvents (putParams batch3 one None) = map toEvent (Msgs batch3)
  /\ SequenceToken (putParams batch3 one None) = None
  /\ tokens u' = <["c1" := "T1"]> (tokens u).
Proof.
  apply (first_delivery_call_sequence 0 batch3 one (tail (Msgs batch3))
           (fresh (retaining "app" 14) first_delivery_script)
           (drop 1 first_delivery_script) []
           (drop 2 first_delivery_script)
           (drop 3 first_delivery_script)
           (drop 4 first_delivery_script)
           (drop 5 first_delivery_script)
           (drop 6 first_delivery_script) [app_group]
           (drop 7 first_delivery_script) web1
           [] (Some "T1"));
    reflexivity.
Defined.

(** ** Stream creation, again and again *)






(** ** A failed append *)



(** ** Two streams under one prefix *)


(** When an empty listing came first, the stream creation that answered it
    precedes the ambiguous listing; nothing follows the ambiguous one. *)
Example ambiguous_after_creation :
  let run := deliver 2 batch3 (fresh noAdapter late_ambiguous_script) in
  run.2 = Val (TokenError
                 (errors_New "2 streams match group app, stream web-1!"))
  /\ map op_of run.1.2
     = [OpListGroups; OpListStreams; OpCreateStream; OpListGroups; OpListStreams]
  /\ tokens run.1.1 = tokens (fresh noAdapter late_ambiguous_script).
Proof. vm_compute. repeat split. Qed.

(** ** A group whose name only starts like the one looked for *)

Lemma groupExists_exact_name_witness :
  let u : Scripted := fresh noAdapter [Script.Groups ["app-staging"; "apple"]] in
  let LogGroups := [{| LogGroupName := "app-staging" |};
                    {| LogGroupName := "apple" |}] in
  exists found,
    groupExists "app" u
    = (with_svc u [], [Remote.listGroups "app" (inr LogGroups)], Val found)
    /\ (found = true <-> exists g, g ∈ LogGroups /\ LogGroupName g = "app")
    /\ ((forall g, g ∈ LogGroups ->
            String.prefix "app" (LogGroupName g) = true
            /\ LogGroupName g <> "app") ->
        found = false).
Proof.
  apply (groupExists_exact_name "app"
           (fresh noAdapter [Script.Groups ["app-staging"; "apple"]]) []).
  reflexivity.
Defined.

Example groupExists_prefix_only :
  (groupExists "app"
     (fresh noAdapter [Script.Groups ["app-staging"; "apple"]])).2 = Val false
  /\ (groupExists "app"
        (fresh noAdapter [Script.Groups ["app-staging"; "app"]])).2 = Val true.
Proof. by vm_compute. Qed.

(** ** The events of the three-message batch *)

Lemma append_carries_batch_events_witness :
  let params := putParams batch3 one None in
  LogEvents params = map toEvent (Msgs batch3)
  /\ length (LogEvents params) = length (Msgs batch3)
  /\ forall (i : nat) msg,
       Msgs batch3 !! i = Some msg ->
       exists ev,
         LogEvents params !! i = Some ev
         /\ ev_Message ev = Message msg
         /\ ev_Timestamp ev = Time msg ÷ 1000000
         /\ Z.abs (Time msg - ev_Timestamp ev * 1000000) < 1000000
         /\ Z.abs (ev_Timestamp ev * 1000000) <= Z.abs (Time msg).
Proof.
  apply (append_carries_batch_events 2 batch3
           (fresh (retaining "app" 14) first_delivery_script)
           (set_token "c1" "T1"
              (with_svc (fresh (retaining "app" 14) first_delivery_script) []))
           [Remote.listGroups "app" (inr []);
            Remote.createGroup "app" (inr tt);
            Remote.setRetention "app" 14 (inr tt);
            Remote.listStreams "app" "web-1" (inr []);
            Remote.createStream "app" "web-1" (inr tt);
            Remote.listGroups "app" (inr [app_group]);
            Remote.listStreams "app" "web-1" (inr [web1]);
            Remote.appendEvents (putParams batch3 one None) (inr (Some "T1"))]
           (Val (Posted (Some "T1")))
           (putParams batch3 one None) (inr (Some "T1"))).
  - reflexivity.
  - do 7 apply list_elem_of_further. apply list_elem_of_here.
Defined.

Example events_of_batch3 :
  LogEvents (putParams batch3 one None) = events3.
Proof. reflexivity. Qed.

(** ** A container that cannot be inspected *)

Lemma inspect_failure_discards_message_witness :
  let body := Stream_body Host.InspectContainer Host.Now Host.parseEnv
                Host.renderEnvValue Host.ParseInt in
  let loop := Stream_loop Host.InspectContainer Host.Now Host.parseEnv
                Host.renderEnvValue Host.ParseInt in
  let err := LibError "No such container" in
  body Host.line noAdapter tt = (noAdapter, tt, inl err)
  /\ (loop [Host.line; Host.line] noAdapter tt).1.1
     = (loop [Host.line] noAdapter tt).1.1
  /\ (loop [Host.line; Host.line] noAdapter tt).2
     = inl err :: (loop [Host.line] noAdapter tt).2
  /\ batcherInput (loop [Host.line; Host.line] noAdapter tt).2
     = batcherInput (loop [Host.line] noAdapter tt).2.
Proof.
  apply (inspect_failure_discards_message Host.InspectContainer Host.Now
           Host.parseEnv Host.renderEnvValue Host.ParseInt
           Host.line noAdapter tt tt (LibError "No such container")
           [Host.line]).
  - left. reflexivity.
  - reflexivity.
Defined.

(** * More runs against the scripted service *)

Lemma getSequenceToken_returns_listed_token_witness :
  exists pre LogStream0,
    dry_calls 1
    = pre ++ [Remote.listStreams (Group one) (Stream one) (inr [LogStream0])]
    /\ None = UploadSequenceToken LogStream0
    /\ Forall (fun c => failure c = None) pre.
Proof.
  apply (getSequenceToken_returns_listed_token 2 one
           (fresh noAdapter (dry 1)) (fresh noAdapter [])).
  reflexivity.
Defined.

Lemma getSequenceToken_stops_at_first_failure_witness :
  let run := getSequenceToken 1 one
               (fresh (retaining "app" 2) refused_retention_script) in
  let e := LibError "InvalidParameterException" in
  exists pre c,
    run.1.2 = pre ++ [c]
    /\ Forall (fun c => failure c = None) pre
    /\ (failure c = Some e
        \/ exists streams,
             c = Remote.listStreams (Group one) (Stream one) (inr streams)
             /\ (1 < length streams)%nat
             /\ e = errors_New (tooManyStreams (length streams)
                                  (Group one) (Stream one))).
Proof.
  apply (getSequenceToken_stops_at_first_failure 1 one
           (fresh (retaining "app" 2) refused_retention_script)
           (getSequenceToken 1 one
              (fresh (retaining "app" 2) refused_retention_script)).1.1).
  reflexivity.
Defined.

Lemma existing_destination_is_only_listed_witness :
  getSequenceToken 1 one (fresh noAdapter (dry 0))
  = (with_svc (fresh noAdapter (dry 0)) [],
     [Remote.listGroups "app" (inr [app_group]);
      Remote.listStreams "app" "web-1" (inr [web1])],
     Val None).
Proof.
  apply (existing_destination_is_only_listed 0 one (fresh noAdapter (dry 0))
           [Script.Streams [web1]] [app_group] [] web1);
    reflexivity.
Defined.

Lemma deliver_targets_first_message_witness :
  Forall (targets "app" "web-1")
    (deliver 1 mixed_batch (fresh noAdapter reuse_script)).1.2.
Proof.
  apply (deliver_targets_first_message 1 mixed_batch
           (fresh noAdapter reuse_script)
           (deliver 1 mixed_batch (fresh noAdapter reuse_script)).1.1
           (deliver 1 mixed_batch (fresh noAdapter reuse_script)).1.2
           (deliver 1 mixed_batch (fresh noAdapter reuse_script)).2
           from_c1 (tail (Msgs mixed_batch)));
    reflexivity.
Defined.

Lemma deliver_appends_once_and_last_witness :
  let run := deliver 1 batch_c1 (fresh noAdapter reuse_script) in
  exists msg pre params out,
    head (Msgs batch_c1) = Some msg
    /\ run.1.2 = pre ++ [Remote.appendEvents params out]
    /\ count is_append pre = 0%nat
    /\ Forall (fun c => failure c = None) pre
    /\ Posted (Some "T1")
       = match out with inl err => PutError err | inr resp => Posted resp end
    /\ tokens run.1.1 !! Container msg
       = match out with
         | inr (Some NextSequenceToken) => Some NextSequenceToken
         | _ => SequenceToken params
         end.
Proof.
  apply (deliver_appends_once_and_last 1 batch_c1 (fresh noAdapter reuse_script));
    reflexivity.
Defined.

Lemma deliver_without_append_keeps_cache_witness :
  let u := holding_T1 ambiguous_script in
  let v := TokenError (errors_New "2 streams match group app, stream web-1!") in
  let run := deliver 1 batch_c2 u in
  count is_append run.1.2 = 0%nat
  /\ tokens run.1.1 = tokens u
  /\ (Msgs batch_c2 = [] -> v = EmptyBatch /\ run.1.2 = [] /\ run.1.1 = u)
  /\ (v = EmptyBatch -> Msgs batch_c2 = []).
Proof.
  apply (deliver_without_append_keeps_cache 1 batch_c2
           (holding_T1 ambiguous_script));
    reflexivity.
Defined.

Lemma next_token_is_reused_witness :
  let u1 := (deliver 1 batch_c1 (fresh noAdapter reuse_script)).1.1 in
  (deliver 1 batch3 u1).1.2
  = [Remote.appendEvents (putParams batch3 one (Some "T1"))
       (PutLogEvents (putParams batch3 one (Some "T1")) (svc u1)).2].
Proof.
  apply (next_token_is_reused 1 1 batch_c1 batch3
           (fresh noAdapter reuse_script)
           (deliver 1 batch_c1 (fresh noAdapter reuse_script)).1.1
           (deliver 1 batch_c1 (fresh noAdapter reuse_script)).1.2
           "T1" from_c1 one (tail (Msgs batch3)));
    reflexivity.
Defined.

Lemma refused_token_is_submitted_again_witness :
  let err := LibError "InvalidSequenceTokenException" in
  let run := deliver 1 batch_c1 (holding_T1 refusing_script) in
  run.1.2 = [Remote.appendEvents (putParams batch_c1 from_c1 (Some "T1")) (inl err)]
  /\ (deliver 1 batch3 run.1.1).1.2
     = [Remote.appendEvents (putParams batch3 one (Some "T1"))
          (PutLogEvents (putParams batch3 one (Some "T1")) (svc run.1.1)).2].
Proof.
  apply (refused_token_is_submitted_again 1 1 batch_c1 batch3
           (holding_T1 refusing_script)
           (deliver 1 batch_c1 (holding_T1 refusing_script)).1.1
           (deliver 1 batch_c1 (holding_T1 refusing_script)).1.2
           (LibError "InvalidSequenceTokenException")
           from_c1 [] "T1" one (tail (Msgs batch3)));
    reflexivity.
Defined.

Lemma deliver_other_containers_witness :
  tokens (deliver 1 batch_c2 (holding_T1 reuse_script)).1.1 !! "c1"
  = tokens (holding_T1 reuse_script) !! "c1".
Proof.
  apply (deliver_other_containers 1 batch_c2 (holding_T1 reuse_script)
           (deliver 1 batch_c2 (holding_T1 reuse_script)).1.1
           (deliver 1 batch_c2 (holding_T1 reuse_script)).1.2
           (deliver 1 batch_c2 (holding_T1 reuse_script)).2 "c1").
  - reflexivity.
  - intros msg [= <-]. discriminate.
Defined.


Lemma Start_keeps_cached_containers_witness :
  is_Some (tokens (Start 1 [batch_c2; batch_c1]
                     (holding_T1 reuse_script)).1.1 !! "c1").
Proof.
  apply (Start_keeps_cached_containers 1 [batch_c2; batch_c1]
           (holding_T1 reuse_script) "c1").
  exists "T1". reflexivity.
Defined.

Lemma new_uploader_lists_group_first_witness :
  let New := fun region : string => [Script.Groups [region]] in
  let u := (NewCloudwatchUploader (fun _ => "") New auto_route noAdapter).1.1 in
  let lines := (NewCloudwatchUploader (fun _ => "") New auto_route noAdapter).2 in
  svc u = New "eu-west-1"
  /\ adapter u = noAdapter
  /\ tokens u = ∅
  /\ ("cloudwatch: ERROR - could not get region from EC2" ∈ lines
      <-> true = true /\ Ec2Region noAdapter = "")
  /\ exists tl,
       (deliver 1 batch3 u).1.2
       = Remote.listGroups "app"
           (DescribeLogGroups "app" (New "eu-west-1")).2 :: tl.
Proof.
  apply (new_uploader_lists_group_first (fun _ => "")
           (fun region : string => [Script.Groups [region]])
           auto_route noAdapter 0 batch3 one (tail (Msgs batch3))).
  reflexivity.
Defined.

(** * Runs of the adapter on a host that answers *)

Lemma names_are_rendered_once_witness :
  exists a2,
    Dock.body Dock.line noAdapter 1%nat
    = (a2, 0%nat, inr (tagged Dock.line "host" "web" 1700000000000000000))
    /\ groupnames a2 !! "c1" = Some "host"
    /\ streamnames a2 !! "c1" = Some "web"
    /\ ("host" <> "" -> "web" <> "" ->
        forall m' d',
          ID (Container_ m') = "c1" ->
          Dock.body m' a2 d'
          = (a2, d', inr (tagged m' "host" "web" 1700000000000000000))).
Proof.
  apply (names_are_rendered_once Dock.InspectContainer Dock.Now Dock.parseEnv
           Dock.renderEnvValue Dock.ParseInt Dock.line noAdapter 1%nat 0%nat
           (Dock.container "/web")).
  - left. reflexivity.
  - reflexivity.
Defined.

Lemma empty_names_are_rendered_again_witness :
  (exists msg, (Dock.body Dock.nameless noAdapter 1%nat).2 = inr msg)
  /\ Dock.body Dock.nameless (Dock.body Dock.nameless noAdapter 1%nat).1.1 0%nat
     = ((Dock.body Dock.nameless noAdapter 1%nat).1.1, 0%nat,
        inl (LibError "No such container")).
Proof.
  apply (empty_names_are_rendered_again Dock.InspectContainer Dock.Now
           Dock.parseEnv Dock.renderEnvValue Dock.ParseInt
           Dock.nameless noAdapter 1%nat 0%nat (Dock.container "/web")
           Dock.nameless 0%nat 0%nat (LibError "No such container")).
  - left. reflexivity.
  - reflexivity.
  - right. reflexivity.
  - reflexivity.
  - reflexivity.
Defined.

Lemma retention_is_cached_when_it_parses_witness :
  (Dock.body Dock.line noAdapter 1%nat).2
  = inr (tagged Dock.line "host" "web" 1700000000000000000)
  /\ retentiondays (Dock.body Dock.line noAdapter 1%nat).1.1
     = <["host" := 14]> (retentiondays noAdapter).
Proof.
  apply (retention_is_cached_when_it_parses Dock.InspectContainer Dock.Now
           Dock.parseEnv Dock.renderEnvValue Dock.ParseInt
           Dock.line noAdapter 1%nat 0%nat (Dock.container "/web")).
  - left. reflexivity.
  - reflexivity.
Defined.

Lemma settled_names_stay_witness :
  groupnames (Dock.loop [Dock.line; Dock.nameless] Dock.settled 0%nat).1.1 !! "c1"
  = Some "host"
  /\ streamnames (Dock.loop [Dock.line; Dock.nameless] Dock.settled 0%nat).1.1 !! "c1"
     = Some "web"
  /\ Forall (fun msg => Container msg = "c1" ->
                        Group msg = "host" /\ Stream msg = "web")
       (batcherInput (Dock.loop [Dock.line; Dock.nameless] Dock.settled 0%nat).2).
Proof.
  apply (settled_names_stay Dock.InspectContainer Dock.Now Dock.parseEnv
           Dock.renderEnvValue Dock.ParseInt
           [Dock.line; Dock.nameless] Dock.settled 0%nat "c1" "host" "web");
    done.
Defined.

Lemma forwarded_names_are_the_cached_ones_witness :
  Group (tagged Dock.line "host" "web" 1700000000000000000)
  = default "" (groupnames (Dock.body Dock.line noAdapter 1%nat).1.1 !! "c1")
  /\ Stream (tagged Dock.line "host" "web" 1700000000000000000)
     = default "" (streamnames (Dock.body Dock.line noAdapter 1%nat).1.1 !! "c1").
Proof.
  apply (forwarded_names_are_the_cached_ones Dock.InspectContainer Dock.Now
           Dock.parseEnv Dock.renderEnvValue Dock.ParseInt
           Dock.line noAdapter 1%nat).
  reflexivity.
Defined.

Lemma new_adapter_inspects_every_container_witness :
  let a := {| OsHost := "host"; Ec2Region := "eu-west-1"; Ec2Instance := "i-0";
              groupnames := ∅; streamnames := ∅; retentiondays := ∅ |} in
  Dock.NewClient "unix:///var/run/docker.sock"
  = inr "unix:///var/run/docker.sock"
  /\ Dock.Hostname = inr (OsHost a)
  /\ (exists ec2info,
        Dock.NewEC2Info auto_route = inr ec2info
        /\ Ec2Instance a = InstanceID ec2info
        /\ Ec2Region a = Region ec2info)
  /\ (forall id, unnamed a id)
  /\ forall m d d1 err,
       Dock.Inspect "unix:///var/run/docker.sock" (ID (Container_ m)) d
       = (d1, inl err) ->
       Stream_body (Dock.Inspect "unix:///var/run/docker.sock") Dock.Now
         Dock.parseEnv Dock.renderEnvValue Dock.ParseInt m a d
       = (a, d1, inl err).
Proof.
  apply (new_adapter_inspects_every_container Dock.Getenv Dock.NewClient
           Dock.Hostname Dock.NewEC2Info Dock.Inspect Dock.Now Dock.parseEnv
           Dock.renderEnvValue Dock.ParseInt auto_route).
  reflexivity.
Defined.
